(** * remini-api: the image-enhancement endpoint, its validator and probes

    A shallow embedding of [src/app.js].  The file holds three variants of
    the same service, referred to here as

    - [Strict]: the first variant (validator-based URL check, reachability
      and content-type probe, shared [enhanceImage], POST and GET routes);
    - [Inline]: the second variant (one POST route with the whole flow
      written inline and its own status codes).

    The third variant has the routes of the first over the checks of the
    second; no property stated here is about it.

    JavaScript values are modelled as they are used: strings as [string],
    a possibly absent string as [option string], response headers as a
    finite map from lower-cased names to values, thrown [Error]s as a
    record with their [message], [async] functions as computations that
    thread the trace of effects they perform and either return or throw. *)

From Stdlib Require Import ZArith QArith Qround Qabs Lia Ascii.
From stdpp Require Import base strings gmap pretty.

Open Scope Z_scope.

(** ** JavaScript primitives used by the program *)

Module Js.

(** A possibly absent string, e.g. [req.body.url] or a response header. *)
Definition truthy (v : option string) : bool :=
  match v with
  | Some s => negb (String.eqb s "")
  | None => false
  end.

(** [v || d] on a possibly absent string. *)
Definition or_else (v : option string) (d : string) : string :=
  match v with
  | Some s => if String.eqb s "" then d else s
  | None => d
  end.

(** [s.startsWith(p)]. *)
Definition startsWith (s p : string) : bool := String.prefix p s.

(** Numbers.  The program only forms the integer read by [parseInt] and
    its quotient by 1024; both are represented exactly by a double as long
    as the integer has magnitude at most 2^53, so a finite number is kept
    as the rational it denotes.  [NaN] is what [parseInt] gives when no
    digit can be read. *)
Inductive number : Type :=
| NaN
| Fin (q : Q).

Definition safe_integer (n : Z) : Prop := Z.abs n <= 2 ^ 53.

(** Division by a constant, as in [sizeInBytes / 1024]. *)
Definition div (x : number) (d : positive) : number :=
  match x with
  | NaN => NaN
  | Fin q => Fin (q / inject_Z (Z.pos d))
  end.

(** ASCII members of the white-space class: TAB, LF, VT, FF, CR, SP. *)
Definition is_ws (c : ascii) : bool :=
  let n := nat_of_ascii c in
  ((9 <=? n) && (n <=? 13))%nat || (n =? 32)%nat.

Definition digit_value (c : ascii) : option Z :=
  let n := Z.of_nat (nat_of_ascii c) in
  if (48 <=? n) && (n <=? 57) then Some (n - 48) else None.

Fixpoint skip_ws (s : string) : string :=
  match s with
  | String c s' => if is_ws c then skip_ws s' else s
  | EmptyString => EmptyString
  end.

(** Longest prefix of decimal digits, read most significant first;
    [None] when the string does not start with a digit. *)
Fixpoint read_digits (s : string) (acc : option Z) : option Z :=
  match s with
  | String c s' =>
      match digit_value c with
      | Some d => read_digits s' (Some (10 * default 0 acc + d))
      | None => acc
      end
  | EmptyString => acc
  end.

(** [parseInt(s, 10)]: leading white space is skipped, one sign is
    accepted, then the longest run of decimal digits is read. *)
Definition parseInt10 (s : string) : number :=
  let s1 := skip_ws s in
  let '(neg, s2) :=
    match s1 with
    | String "-"%char r => (true, r)
    | String "+"%char r => (false, r)
    | _ => (false, s1)
    end in
  match read_digits s2 None with
  | None => NaN
  | Some n => Fin (inject_Z (if neg : bool then - n else n))
  end.

Definition pad2 (n : Z) : string :=
  if n <? 10 then "0" +:+ pretty (Z.to_N n) else pretty (Z.to_N n).

(** The decimal rendering of [n / 100] with exactly two fraction digits. *)
Definition hundredths (n : Z) : string :=
  pretty (Z.to_N (n / 100)) +:+ "." +:+ pad2 (n mod 100).

(** [x.toFixed(2)]: the integer [n] with [n / 100] nearest to [|x|], the
    larger one on a tie, printed with two fraction digits after the sign
    of [x]. *)
Definition toFixed2 (x : number) : string :=
  match x with
  | NaN => "NaN"
  | Fin q =>
      let n := Qfloor (Qabs q * inject_Z 100 + (1 # 2)) in
      (if Qlt_le_dec q 0 then "-" else "") +:+ hundredths n
  end.

End Js.

(** ** Effects: thrown errors and the trace of a run *)

Module Eff.

(** [new Error(message)]. *)
Record Error : Type := new_Error { message : string }.

(** What a run does to the outside: lines written with [console.error],
    header-only requests issued through [axios.head], and calls of the
    enhancement provider. *)
Inductive Event : Type :=
| ConsoleError (label detail : string)
| HeadRequest (url : string)
| ProviderCall (url : string).

Definition Trace : Type := list Event.

(** The settlement of a promise: rejected with an error or fulfilled. *)
Definition Outcome (A : Type) : Type := (Error + A)%type.

(** An [async] computation: it extends the trace and settles. *)
Definition M (A : Type) : Type := Trace -> Outcome A * Trace.

Definition ret {A} (a : A) : M A := fun t => (inr a, t).

Definition throw {A} (e : Error) : M A := fun t => (inl e, t).

Definition bind {A B} (m : M A) (k : A -> M B) : M B :=
  fun t =>
    match m t with
    | (inr a, t1) => k a t1
    | (inl e, t1) => (inl e, t1)
    end.

(** [try { m } catch (e) { h e }]. *)
Definition try_catch {A} (m : M A) (h : Error -> M A) : M A :=
  fun t =>
    match m t with
    | (inr a, t1) => (inr a, t1)
    | (inl e, t1) => h e t1
    end.

Definition emit (ev : Event) : M unit := fun t => (inr tt, t ++ [ev]).

Definition lift {A} (o : Outcome A) : M A := fun t => (o, t).

Definition console_error (label detail : string) : M unit :=
  emit (ConsoleError label detail).

End Eff.

Notation "'let!' x ':=' m 'in' k" := (Eff.bind m (fun x => k))
  (at level 10, x name, m at level 100, k at level 200).
Notation "m ';;' k" := (Eff.bind m (fun _ => k))
  (at level 100, k at level 200, right associativity).

(** ** The network and the provider, as the program sees them *)

Module Http.
Import Eff.

Record Response : Type := { status : Z; headers : gmap string string }.

(** What the remote side does when a URL is probed: the connection fails,
    or after some milliseconds and some redirects a response arrives. *)
Inductive Exchange : Type :=
| Unreachable (reason : string)
| Answers (elapsed_ms : Z) (redirects : nat) (r : Response).

(** The request options the program passes to [axios.head]. *)
Record Config : Type :=
  { timeout : Z; maxRedirects : nat; validateStatus : Z -> bool }.

(** The library's status check when the caller supplies none. *)
Definition default_validateStatus (status : Z) : bool :=
  (200 <=? status) && (status <? 300).

(** How a request settles under a configuration: the promise rejects when
    the connection fails, when more redirects are needed than allowed, when
    the answer takes longer than the timeout, or when the status is refused
    by [validateStatus]. *)
Definition settle (cfg : Config) (x : Exchange) : Outcome Response :=
  match x with
  | Unreachable reason => inl (new_Error reason)
  | Answers ms hops r =>
      if (maxRedirects cfg <? hops)%nat
      then inl (new_Error "Maximum number of redirects exceeded")
      else if timeout cfg <? ms
      then inl (new_Error ("timeout of " +:+ pretty (timeout cfg) +:+ "ms exceeded"))
      else if validateStatus cfg (status r)
      then inr r
      else inl (new_Error ("Request failed with status code " +:+ pretty (status r)))
  end.

(** The collaborators of one run: the remote behind each URL and the
    [remini] provider, which rejects or resolves to a value that may be
    absent. *)
Record World : Type :=
  { remote : string -> Exchange;
    provider : string -> Outcome (option string) }.

Definition axios_head (w : World) (url : string) (cfg : Config) : M Response :=
  emit (HeadRequest url) ;; lift (settle cfg (remote w url)).

Definition remini (w : World) (url : string) : M (option string) :=
  emit (ProviderCall url) ;; lift (provider w url).

(** What a route sends back: [res.status(code).json(body)], the body being
    an object with string fields, kept in the order written. *)
Record Reply : Type := { code : Z; json : list (string * string) }.

(** The two places a route reads its input from. *)
Record Request : Type :=
  { body : gmap string string; query : gmap string string }.

End Http.

(** ** The validator library *)

Module Validator.
Import Eff.

Record UrlOptions : Type :=
  { protocols : list string;
    require_protocol : bool;
    require_valid_protocol : bool;
    require_host : bool }.

(** The two functions of the [validator] package the program calls, on
    strings.  The package is not part of the repository; the pipeline is
    defined over any implementation of this interface.  [isURL] may throw,
    which is what the [try] of [isValidUrl] is there for. *)
Record Lib : Type :=
  { trim : string -> string;
    isURL : string -> UrlOptions -> Outcome bool }.

Fixpoint ltrim (s : string) : string :=
  match s with
  | String c r => if Js.is_ws c then ltrim r else s
  | EmptyString => EmptyString
  end.

Fixpoint rtrim (s : string) : string :=
  match s with
  | String c r =>
      let r' := rtrim r in
      if Js.is_ws c && String.eqb r' "" then "" else String c r'
  | EmptyString => EmptyString
  end.

(** Modelled from the spec: [validator.trim] (the package is not under
    src/).  "Leading/trailing whitespace is trimmed before evaluation." *)
Definition spec_trim (s : string) : string := rtrim (ltrim s).

(** What follows [p] in [s], when [s] starts with [p]. *)
Fixpoint strip_prefix (p s : string) : option string :=
  match p, s with
  | EmptyString, _ => Some s
  | String a p', String b s' =>
      if Ascii.eqb a b then strip_prefix p' s' else None
  | String _ _, EmptyString => None
  end.

(** The text before the first ["://"] and the text after it. *)
Fixpoint split_scheme (s : string) : option (string * string) :=
  match strip_prefix "://" s with
  | Some rest => Some ("", rest)
  | None =>
      match s with
      | String c r =>
          match split_scheme r with
          | Some (sch, rest) => Some (String c sch, rest)
          | None => None
          end
      | EmptyString => None
      end
  end.

Fixpoint take_until (stop : ascii -> bool) (s : string) : string :=
  match s with
  | String c r => if stop c then "" else String c (take_until stop r)
  | EmptyString => EmptyString
  end.

Fixpoint mentions (a : ascii) (s : string) : bool :=
  match s with
  | String c r => Ascii.eqb c a || mentions a r
  | EmptyString => false
  end.

(** The text after the last ["@"], the whole text when there is none. *)
Fixpoint drop_userinfo (s : string) : string :=
  match s with
  | String c r =>
      if mentions "@" r then drop_userinfo r
      else if Ascii.eqb c "@" then r else s
  | EmptyString => EmptyString
  end.

(** The host component of what follows ["://"]: the authority ends at the
    first of [/ ? #]; the host is what remains of it once user information
    and a port are removed. *)
Definition host_of (rest : string) : string :=
  let authority :=
    take_until (fun c => Ascii.eqb c "/" || Ascii.eqb c "?" || Ascii.eqb c "#") rest in
  take_until (fun c => Ascii.eqb c ":") (drop_userinfo authority).

(** Modelled from the spec: [validator.isURL] (the package is not under
    src/).  "A candidate is valid only if it parses as an absolute URL, its
    scheme is exactly http or https, and it has a non-empty host
    component"; the accepted schemes and the two requirements are the
    options the caller passes. *)
Definition spec_isURL (s : string) (o : UrlOptions) : Outcome bool :=
  match split_scheme s with
  | Some (sch, rest) =>
      inr ((negb (require_valid_protocol o) || existsb (String.eqb sch) (protocols o))
           && (negb (require_host o) || negb (String.eqb (host_of rest) "")))
  | None =>
      inr (negb (require_protocol o)
           && (negb (require_host o) || negb (String.eqb (host_of s) "")))
  end.

Definition spec_lib : Lib := {| trim := spec_trim; isURL := spec_isURL |}.

(** Modelled from the spec: the platform's [new URL(s)] (not under src/),
    the "basic [new URL()] parsing" of the design notes: it returns when
    the string parses as an absolute URL and throws otherwise. *)
Definition spec_newURL (s : string) : Outcome unit :=
  match split_scheme s with
  | Some (String _ _, _) => inr tt
  | _ => inl (new_Error "Invalid URL")
  end.

End Validator.

(** ** The strict variant (first variant of [src/app.js]) *)

Module Strict.
Import Eff Http.

(** The object returned by a successful run. *)
Record Enhanced : Type :=
  { original_url : string; image_data : string; image_size : string }.

(** Options of the size probe (lines 34-38). *)
Definition size_probe_config : Config :=
  {| timeout := 5000;
     maxRedirects := 3;
     validateStatus := fun status =>
       (200 <=? status) && (status <? 300) || (status =? 403) |}.

(** Options of the reachability probe (lines 76-80). *)
Definition reachability_config : Config :=
  {| timeout := 5000;
     maxRedirects := 3;
     validateStatus := fun status => (200 <=? status) && (status <? 300) |}.

(** Options passed to [validator.isURL] (lines 20-23). *)
Definition url_options : Validator.UrlOptions :=
  {| Validator.protocols := ["http"; "https"];
     Validator.require_protocol := true;
     Validator.require_valid_protocol := true;
     Validator.require_host := true |}.

Section Pipeline.
Context (V : Validator.Lib) (w : World).

Definition isValidUrl (url : string) : bool :=
  match Validator.isURL V url url_options with
  | inr b => b
  | inl _ => false
  end.

Definition getFileSize (url : string) : M string :=
  try_catch
    (let! response := axios_head w url size_probe_config in
     let sizeInBytes :=
       Js.parseInt10 (Js.or_else (headers response !! "content-length") "0") in
     let sizeInKB := Js.toFixed2 (Js.div sizeInBytes 1024) in
     ret (sizeInKB +:+ " KB"))
    (fun error =>
       console_error "Error getting file size:" (message error) ;;
       ret "Unknown").

Definition enhanceImage (url : option string) : M Enhanced :=
  if negb (Js.truthy url) then throw (new_Error "URL is required") else
  let sanitizedUrl := Validator.trim V (default "" url) in
  if negb (isValidUrl sanitizedUrl)
  then throw (new_Error "Invalid URL format or protocol") else
  try_catch
    (let! headResponse := axios_head w sanitizedUrl reachability_config in
     let contentType := headers headResponse !! "content-type" in
     if negb (Js.truthy contentType)
        || negb (Js.startsWith (default "" contentType) "image/")
     then throw (new_Error "URL does not point to a valid image")
     else ret tt)
    (fun accessError =>
       console_error "Image access error:" (message accessError) ;;
       throw (new_Error "Cannot access the specified image")) ;;
  let! enhancedImageUrl :=
    try_catch
      (remini w sanitizedUrl)
      (fun reminiError =>
         console_error "Remini Enhancement Specific Error:" (message reminiError) ;;
         throw (new_Error "Failed to enhance the image")) in
  if negb (Js.truthy enhancedImageUrl)
     || negb (isValidUrl (default "" enhancedImageUrl))
  then throw (new_Error "Enhanced image URL is invalid") else
  let! image_size := getFileSize (default "" enhancedImageUrl) in
  ret {| original_url := sanitizedUrl;
         image_data := default "" enhancedImageUrl;
         image_size := image_size |}.

Definition result_json (r : Enhanced) : list (string * string) :=
  [("original_url", original_url r);
   ("image_data", image_data r);
   ("image_size", image_size r)].

(** [app.post('/enhance-image')]. *)
Definition post_enhance_image (req : Request) : M Reply :=
  try_catch
    (let url := body req !! "url" in
     let! result := enhanceImage url in
     ret {| code := 200; json := result_json result |})
    (fun error =>
       console_error "Enhancement Error:" (message error) ;;
       ret {| code := 400;
              json := [("error", "ENHANCEMENT_FAILED");
                       ("message",
                        Js.or_else (Some (message error))
                                   "An unexpected error occurred")] |}).

(** [app.get('/enhance-image')]. *)
Definition get_enhance_image (req : Request) : M Reply :=
  try_catch
    (let url := query req !! "url" in
     let! result := enhanceImage url in
     ret {| code := 200; json := result_json result |})
    (fun error =>
       console_error "Enhancement Error:" (message error) ;;
       ret {| code := 400;
              json := [("error", "ENHANCEMENT_FAILED");
                       ("message",
                        Js.or_else (Some (message error))
                                   "An unexpected error occurred")] |}).

End Pipeline.

(** The global error handler, reached only by errors that no route
    caught. *)
Definition global_error_handler (err : Error) : M Reply :=
  console_error "Unhandled Error:" (message err) ;;
  ret {| code := 500;
         json := [("error", "INTERNAL_SERVER_ERROR");
                  ("message", "An unexpected server error occurred")] |}.

End Strict.

(** ** The inline variant (second variant of [src/app.js]) *)

Module Inline.
Import Eff Http.

(** Options of the size probe (lines 203-204): no status check is given,
    so the library's own applies. *)
Definition size_probe_config : Config :=
  {| timeout := 5000;
     maxRedirects := 3;
     validateStatus := default_validateStatus |}.

Section Route.
Context (newURL : string -> Outcome unit) (w : World).

Definition isValidUrl (url : string) : bool :=
  match newURL url with
  | inr _ => true
  | inl _ => false
  end.

Definition getFileSize (url : string) : M string :=
  try_catch
    (let! response := axios_head w url size_probe_config in
     let sizeInBytes :=
       Js.parseInt10 (Js.or_else (headers response !! "content-length") "0") in
     let sizeInKB := Js.toFixed2 (Js.div sizeInBytes 1024) in
     ret (sizeInKB +:+ " KB"))
    (fun error =>
       console_error "Error getting file size:" (message error) ;;
       ret "Unknown").

(** [app.post('/enhance-image')].  A [return res.status(..).json(..)]
    inside the inner handler ends the route: the inner block yields
    either that reply or the provider's value. *)
Definition post_enhance_image (req : Request) : M Reply :=
  try_catch
    (let url := body req !! "url" in
     if negb (Js.truthy url)
     then ret {| code := 400;
                 json := [("error", "URL_REQUIRED");
                          ("message",
                           "Please provide an image URL in the request body")] |}
     else
     if negb (isValidUrl (default "" url))
     then ret {| code := 400;
                 json := [("error", "INVALID_URL");
                          ("message", "The provided URL is not valid")] |}
     else
     let! called :=
       try_catch
         (let! enhancedImageUrl := remini w (default "" url) in
          ret (inr enhancedImageUrl))
         (fun reminiError =>
            console_error "Remini Enhancement Specific Error:"
                          (message reminiError) ;;
            ret (inl {| code := 500;
                        json := [("error", "ENHANCEMENT_FAILED");
                                 ("message", "Failed to enhance the image");
                                 ("details",
                                  Js.or_else (Some (message reminiError))
                                             "Unknown error occurred")] |})) in
     match called with
     | inl reply => ret reply
     | inr enhancedImageUrl =>
         if negb (Js.truthy enhancedImageUrl)
            || negb (isValidUrl (default "" enhancedImageUrl))
         then ret {| code := 500;
                     json := [("error", "INVALID_RESULT");
                              ("message", "Enhanced image URL is invalid")] |}
         else
         let! image_size := getFileSize (default "" enhancedImageUrl) in
         ret {| code := 200;
                json := [("image_data", default "" enhancedImageUrl);
                         ("image_size", image_size)] |}
     end)
    (fun error =>
       console_error "Unexpected Enhancement Error:" (message error) ;;
       ret {| code := 500;
              json := [("error", "UNEXPECTED_ERROR");
                       ("message",
                        "An unexpected error occurred during image enhancement");
                       ("details",
                        Js.or_else (Some (message error)) "Unknown error")] |}).

End Route.

End Inline.

(** ** The failure classification of the specification *)

Module Spec.
Import Eff.

Inductive ErrorKind : Type :=
| MissingUrl
| InvalidUrl
| UnreachableResource
| NotAnImage
| ProviderFailure
| InvalidProviderResult
| InternalFault.

(** The program has no type of failure kinds: a failure is an [Error]
    told apart by its message.  This reads the kind off the messages the
    strict variant constructs (lines 63, 69, 86, 90, 99, 104); any other
    error is an unclassified fault. *)
Definition kind_of (e : Error) : ErrorKind :=
  let m := message e in
  if String.eqb m "URL is required" then MissingUrl
  else if String.eqb m "Invalid URL format or protocol" then InvalidUrl
  else if String.eqb m "Cannot access the specified image" then UnreachableResource
  else if String.eqb m "URL does not point to a valid image" then NotAnImage
  else if String.eqb m "Failed to enhance the image" then ProviderFailure
  else if String.eqb m "Enhanced image URL is invalid" then InvalidProviderResult
  else InternalFault.

End Spec.

(** ** Predicates used to state the properties *)

Module Props.
Import Eff Http.

(** A string made of white space only. *)
Fixpoint all_ws (s : string) : bool :=
  match s with
  | String c r => Js.is_ws c && all_ws r
  | EmptyString => true
  end.

(** The content-type test of the reachability step accepts the response. *)
Definition is_image (r : Response) : bool :=
  Js.truthy (headers r !! "content-type")
  && Js.startsWith (default "" (headers r !! "content-type")) "image/".

(** The presence check, the validation of the trimmed input [s] and the
    reachability and content-type probe all succeed, the probe with
    response [r]. *)
Definition passes_checks (V : Validator.Lib) (w : World)
    (url : option string) (s : string) (r : Response) : Prop :=
  Js.truthy url = true
  /\ s = Validator.trim V (default "" url)
  /\ Strict.isValidUrl V s = true
  /\ settle Strict.reachability_config (remote w s) = inr r
  /\ is_image r = true.

(** The provider resolves to the usable URL [e]. *)
Definition provider_returns (V : Validator.Lib) (w : World)
    (s e : string) : Prop :=
  provider w s = inr (Some e)
  /\ Js.truthy (Some e) = true
  /\ Strict.isValidUrl V e = true.

(** The ways a probe can go wrong under a configuration: the connection
    fails, the redirect limit is exceeded, the answer comes after the
    timeout, or the status is not acceptable. *)
Definition rejected (cfg : Config) (x : Exchange) : Prop :=
  match x with
  | Unreachable _ => True
  | Answers ms hops r =>
      (maxRedirects cfg < hops)%nat
      \/ timeout cfg < ms
      \/ validateStatus cfg (status r) = false
  end.

(** The messages a run of the strict pipeline can fail with. *)
Definition strict_failures : list string :=
  ["URL is required";
   "Invalid URL format or protocol";
   "Cannot access the specified image";
   "Failed to enhance the image";
   "Enhanced image URL is invalid"].

(** What either route of the strict variant answers, given the settlement
    of the pipeline. *)
Definition strict_answer (run : Outcome Strict.Enhanced * Trace)
    : Outcome Reply * Trace :=
  match run with
  | (inr result, t1) =>
      (inr {| code := 200; json := Strict.result_json result |}, t1)
  | (inl error, t1) =>
      (inr {| code := 400;
              json := [("error", "ENHANCEMENT_FAILED");
                       ("message",
                        Js.or_else (Some (message error))
                                   "An unexpected error occurred")] |},
       t1 ++ [ConsoleError "Enhancement Error:" (message error)])
  end.

(** A computation whose settlement does not depend on the trace it starts
    from, and which only appends to that trace. *)
Definition framed {A} (m : M A) : Prop :=
  forall t, m t = (fst (m []), t ++ snd (m [])).

End Props.

(** ** Concrete scenarios *)

Module Scenario.
Import Eff Http.

Definition png : Response :=
  {| status := 200; headers := {[ "content-type" := "image/png" ]} |}.

Definition html : Response :=
  {| status := 200; headers := {[ "content-type" := "text/html" ]} |}.

Definition sized (len : string) : Response :=
  {| status := 200; headers := {[ "content-length" := len ]} |}.

Definition forbidden : Response :=
  {| status := 403; headers := {[ "content-type" := "image/png" ]} |}.

Definition input_url : string := "https://example.com/in.png".
Definition output_url : string := "https://example.com/out.png".

(** The input is an image; the provider answers [output_url], whose
    content-length is [len]. *)
Definition serving (len : string) : World :=
  {| remote := fun u =>
       if String.eqb u input_url then Answers 120 0 png
       else if String.eqb u output_url then Answers 80 1 (sized len)
       else Unreachable "getaddrinfo ENOTFOUND";
     provider := fun _ => inr (Some output_url) |}.

(** Answers as [serving] about the input and the output URL, and
    differently about every other URL. *)
Definition busy (len : string) : World :=
  {| remote := fun u =>
       if String.eqb u input_url then Answers 120 0 png
       else if String.eqb u output_url then Answers 80 1 (sized len)
       else Answers 10 0 html;
     provider := fun u =>
       if String.eqb u input_url then inr (Some output_url)
       else inl (new_Error "quota exceeded") |}.

(** As [serving], but the enhanced image cannot be probed in time. *)
Definition slow_output : World :=
  {| remote := fun u =>
       if String.eqb u input_url then Answers 120 0 png
       else Answers 9000 0 (sized "204800");
     provider := fun _ => inr (Some output_url) |}.

(** The input is an image; the provider rejects with message [m]. *)
Definition failing (m : string) : World :=
  {| remote := fun _ => Answers 120 0 png;
     provider := fun _ => inl (new_Error m) |}.

(** The input is an image; the provider resolves to [v]. *)
Definition answering (v : option string) : World :=
  {| remote := fun _ => Answers 120 0 png;
     provider := fun _ => inr v |}.

(** Every URL answers with a page of HTML. *)
Definition pages : World :=
  {| remote := fun _ => Answers 50 0 html;
     provider := fun _ => inr (Some output_url) |}.

(** Every URL answers 403. *)
Definition guarded : World :=
  {| remote := fun _ => Answers 50 0 forbidden;
     provider := fun _ => inr (Some output_url) |}.

Definition post (u : string) : Request :=
  {| body := {[ "url" := u ]}; query := ∅ |}.

Definition no_input : Request := {| body := ∅; query := ∅ |}.

End Scenario.

(** ** The shared variant (third variant of [src/app.js]) *)

Module Shared.
Import Eff Http.

(** The object returned by a successful run (lines 393-396). *)
Record Enhanced : Type := { image_data : string; image_size : string }.

(** Options of the size probe (lines 342-343). *)
Definition size_probe_config : Config :=
  {| timeout := 5000;
     maxRedirects := 3;
     validateStatus := default_validateStatus |}.

Section Pipeline.
Context (newURL : string -> Outcome unit) (w : World).

Definition isValidUrl (url : string) : bool :=
  match newURL url with
  | inr _ => true
  | inl _ => false
  end.

Definition getFileSize (url : string) : M string :=
  try_catch
    (let! response := axios_head w url size_probe_config in
     let sizeInBytes :=
       Js.parseInt10 (Js.or_else (headers response !! "content-length") "0") in
     let sizeInKB := Js.toFixed2 (Js.div sizeInBytes 1024) in
     ret (sizeInKB +:+ " KB"))
    (fun error =>
       console_error "Error getting file size:" (message error) ;;
       ret "Unknown").

Definition enhanceImage (url : option string) : M Enhanced :=
  if negb (Js.truthy url) then throw (new_Error "URL is required") else
  if negb (isValidUrl (default "" url))
  then throw (new_Error "Invalid URL format") else
  let! enhancedImageUrl :=
    try_catch
      (remini w (default "" url))
      (fun reminiError =>
         console_error "Remini Enhancement Specific Error:" (message reminiError) ;;
         throw (new_Error "Failed to enhance the image")) in
  if negb (Js.truthy enhancedImageUrl)
     || negb (isValidUrl (default "" enhancedImageUrl))
  then throw (new_Error "Enhanced image URL is invalid") else
  let! image_size := getFileSize (default "" enhancedImageUrl) in
  ret {| image_data := default "" enhancedImageUrl;
         image_size := image_size |}.

Definition result_json (r : Enhanced) : list (string * string) :=
  [("image_data", image_data r); ("image_size", image_size r)].

(** [app.post('/enhance-image')] (lines 400-412). *)
Definition post_enhance_image (req : Request) : M Reply :=
  try_catch
    (let url := body req !! "url" in
     let! result := enhanceImage url in
     ret {| code := 200; json := result_json result |})
    (fun error =>
       console_error "Enhancement Error:" (message error) ;;
       ret {| code := 400;
              json := [("error", "ENHANCEMENT_FAILED");
                       ("message",
                        Js.or_else (Some (message error))
                                   "An unexpected error occurred")] |}).

(** [app.get('/enhance-image')] (lines 415-427). *)
Definition get_enhance_image (req : Request) : M Reply :=
  try_catch
    (let url := query req !! "url" in
     let! result := enhanceImage url in
     ret {| code := 200; json := result_json result |})
    (fun error =>
       console_error "Enhancement Error:" (message error) ;;
       ret {| code := 400;
              json := [("error", "ENHANCEMENT_FAILED");
                       ("message",
                        Js.or_else (Some (message error))
                                   "An unexpected error occurred")] |}).

End Pipeline.

End Shared.

(** ** The stages of a run *)

Module Stages.
Import Eff Http Props.

(** The label computed from an accepted size probe (lines 41-43). *)
Definition size_label (r : Response) : string :=
  Js.toFixed2
    (Js.div (Js.parseInt10 (Js.or_else (headers r !! "content-length") "0")) 1024)
  +:+ " KB".

(** The provider's value is absent, empty, or refused by the validator
    (line 103). *)
Definition unusable (valid : string -> bool) (v : option string) : bool :=
  negb (Js.truthy v) || negb (valid (default "" v)).

(** The ways a run of the strict pipeline on [url], started from trace
    [t], can end: one constructor for each exit of [enhanceImage], with
    the settlement and the trace at that exit. *)
Inductive StrictRun (V : Validator.Lib) (w : World) (url : option string)
    (t : Trace) : Outcome Strict.Enhanced * Trace -> Prop :=
| exit_missing :
    Js.truthy url = false ->
    StrictRun V w url t (inl (new_Error "URL is required"), t)
| exit_invalid :
    Js.truthy url = true ->
    Strict.isValidUrl V (Validator.trim V (default "" url)) = false ->
    StrictRun V w url t (inl (new_Error "Invalid URL format or protocol"), t)
| exit_unreachable s err :
    Js.truthy url = true ->
    s = Validator.trim V (default "" url) ->
    Strict.isValidUrl V s = true ->
    settle Strict.reachability_config (remote w s) = inl err ->
    StrictRun V w url t
      (inl (new_Error "Cannot access the specified image"),
       t ++ [HeadRequest s; ConsoleError "Image access error:" (message err)])
| exit_not_image s r :
    Js.truthy url = true ->
    s = Validator.trim V (default "" url) ->
    Strict.isValidUrl V s = true ->
    settle Strict.reachability_config (remote w s) = inr r ->
    is_image r = false ->
    StrictRun V w url t
      (inl (new_Error "Cannot access the specified image"),
       t ++ [HeadRequest s;
             ConsoleError "Image access error:"
                          "URL does not point to a valid image"])
| exit_provider_fails s r err :
    passes_checks V w url s r ->
    provider w s = inl err ->
    StrictRun V w url t
      (inl (new_Error "Failed to enhance the image"),
       t ++ [HeadRequest s; ProviderCall s;
             ConsoleError "Remini Enhancement Specific Error:" (message err)])
| exit_bad_result s r v :
    passes_checks V w url s r ->
    provider w s = inr v ->
    unusable (Strict.isValidUrl V) v = true ->
    StrictRun V w url t
      (inl (new_Error "Enhanced image URL is invalid"),
       t ++ [HeadRequest s; ProviderCall s])
| exit_unsized s r e err :
    passes_checks V w url s r ->
    provider_returns V w s e ->
    settle Strict.size_probe_config (remote w e) = inl err ->
    StrictRun V w url t
      (inr {| Strict.original_url := s;
              Strict.image_data := e;
              Strict.image_size := "Unknown" |},
       t ++ [HeadRequest s; ProviderCall s; HeadRequest e;
             ConsoleError "Error getting file size:" (message err)])
| exit_sized s r e r' :
    passes_checks V w url s r ->
    provider_returns V w s e ->
    settle Strict.size_probe_config (remote w e) = inr r' ->
    StrictRun V w url t
      (inr {| Strict.original_url := s;
              Strict.image_data := e;
              Strict.image_size := size_label r' |},
       t ++ [HeadRequest s; ProviderCall s; HeadRequest e]).

(** The ways the inline route can end, with its reply and trace. *)
Inductive InlineRun (newURL : string -> Outcome unit) (w : World)
    (req : Request) (t : Trace) : Reply * Trace -> Prop :=
| inline_exit_missing :
    Js.truthy (body req !! "url") = false ->
    InlineRun newURL w req t
      ({| code := 400;
          json := [("error", "URL_REQUIRED");
                   ("message",
                    "Please provide an image URL in the request body")] |}, t)
| inline_exit_invalid u :
    body req !! "url" = Some u ->
    Js.truthy (Some u) = true ->
    Inline.isValidUrl newURL u = false ->
    InlineRun newURL w req t
      ({| code := 400;
          json := [("error", "INVALID_URL");
                   ("message", "The provided URL is not valid")] |}, t)
| inline_exit_provider_fails u err :
    body req !! "url" = Some u ->
    Js.truthy (Some u) = true ->
    Inline.isValidUrl newURL u = true ->
    provider w u = inl err ->
    InlineRun newURL w req t
      ({| code := 500;
          json := [("error", "ENHANCEMENT_FAILED");
                   ("message", "Failed to enhance the image");
                   ("details",
                    Js.or_else (Some (message err)) "Unknown error occurred")] |},
       t ++ [ProviderCall u;
             ConsoleError "Remini Enhancement Specific Error:" (message err)])
| inline_exit_bad_result u v :
    body req !! "url" = Some u ->
    Js.truthy (Some u) = true ->
    Inline.isValidUrl newURL u = true ->
    provider w u = inr v ->
    unusable (Inline.isValidUrl newURL) v = true ->
    InlineRun newURL w req t
      ({| code := 500;
          json := [("error", "INVALID_RESULT");
                   ("message", "Enhanced image URL is invalid")] |},
       t ++ [ProviderCall u])
| inline_exit_done u e label t' :
    body req !! "url" = Some u ->
    Js.truthy (Some u) = true ->
    Inline.isValidUrl newURL u = true ->
    provider w u = inr (Some e) ->
    unusable (Inline.isValidUrl newURL) (Some e) = false ->
    Inline.getFileSize w e (t ++ [ProviderCall u]) = (inr label, t') ->
    InlineRun newURL w req t
      ({| code := 200;
          json := [("image_data", e); ("image_size", label)] |}, t').

Definition is_head (ev : Event) : bool :=
  match ev with HeadRequest _ => true | _ => false end.

Definition is_call (ev : Event) : bool :=
  match ev with ProviderCall _ => true | _ => false end.

Definition is_log (ev : Event) : bool :=
  match ev with ConsoleError _ _ => true | _ => false end.

(** How many events of a kind a trace holds. *)
Definition count (kind : Event -> bool) (t : Trace) : nat :=
  length (List.filter kind t).

End Stages.

(** ** The content-length of a response that was accepted *)

Module Wire.





End Wire.

(** * Properties *)

Import Eff Http Props.

(** ** Running computations *)

Lemma axios_head_run w url cfg t :
  axios_head w url cfg t = (settle cfg (remote w url), t ++ [HeadRequest url]).
Proof. reflexivity. Qed.

Lemma remini_run w url t :
  remini w url t = (provider w url, t ++ [ProviderCall url]).
Proof. reflexivity. Qed.

(** ** Independence from the starting trace *)

Lemma framed_ret {A} (a : A) : framed (ret a).
Proof. intros t. cbn. by rewrite app_nil_r. Qed.

Lemma framed_throw {A} (e : Error) : framed (@throw A e).
Proof. intros t. cbn. by rewrite app_nil_r. Qed.

Lemma framed_lift {A} (o : Outcome A) : framed (lift o).
Proof. intros t. cbn. by rewrite app_nil_r. Qed.

Lemma framed_emit ev : framed (emit ev).
Proof. intros t. reflexivity. Qed.

Lemma framed_bind {A B} (m : M A) (k : A -> M B) :
  framed m -> (forall a, framed (k a)) -> framed (bind m k).
Proof.
  intros Hm Hk t. unfold bind. rewrite (Hm t).
  destruct (m []) as [[e|a] t1]; cbn.
  - reflexivity.
  - rewrite (Hk a (t ++ t1)), (Hk a t1). cbn. by rewrite app_assoc.
Qed.

Lemma framed_try {A} (m : M A) (h : Error -> M A) :
  framed m -> (forall e, framed (h e)) -> framed (try_catch m h).
Proof.
  intros Hm Hh t. unfold try_catch. rewrite (Hm t).
  destruct (m []) as [[e|a] t1]; cbn.
  - rewrite (Hh e (t ++ t1)), (Hh e t1). cbn. by rewrite app_assoc.
  - reflexivity.
Qed.

Lemma framed_if {A} (b : bool) (m1 m2 : M A) :
  framed m1 -> framed m2 -> framed (if b then m1 else m2).
Proof. by destruct b. Qed.

Create HintDb framed.
#[export] Hint Resolve framed_ret framed_throw framed_lift framed_emit : framed.

Ltac framed_steps :=
  repeat first
    [ solve [ auto with framed ]
    | apply framed_if
    | apply framed_bind; [ | intros ? ]
    | apply framed_try; [ | intros ? ] ].

Lemma framed_axios_head w url cfg : framed (axios_head w url cfg).
Proof. unfold axios_head. framed_steps. Qed.

Lemma framed_remini w url : framed (remini w url).
Proof. unfold remini. framed_steps. Qed.

Lemma framed_getFileSize w url : framed (Strict.getFileSize w url).
Proof.
  unfold Strict.getFileSize, console_error.
  apply framed_try; [ | intros ? ].
  - apply framed_bind; [ apply framed_axios_head | intros ?; apply framed_ret ].
  - framed_steps.
Qed.

Lemma framed_enhanceImage V w url : framed (Strict.enhanceImage V w url).
Proof.
  unfold Strict.enhanceImage, console_error.
  apply framed_if; [ apply framed_throw | ].
  apply framed_if; [ apply framed_throw | ].
  apply framed_bind; [ | intros _ ].
  { apply framed_try; [ | intros ?; framed_steps ].
    apply framed_bind; [ apply framed_axios_head | intros ? ].
    framed_steps. }
  apply framed_bind; [ | intros enhanced ].
  { apply framed_try; [ apply framed_remini | intros ?; framed_steps ]. }
  apply framed_if; [ apply framed_throw | ].
  apply framed_bind; [ apply framed_getFileSize | intros ?; apply framed_ret ].
Qed.

(** ** The steps of the strict pipeline *)

Lemma is_image_split r :
  is_image r = true ->
  negb (Js.truthy (headers r !! "content-type"))
  || negb (Js.startsWith (default "" (headers r !! "content-type")) "image/") = false.
Proof.
  unfold is_image. intros [-> ->]%andb_prop. reflexivity.
Qed.

Lemma not_image_split r :
  is_image r = false ->
  negb (Js.truthy (headers r !! "content-type"))
  || negb (Js.startsWith (default "" (headers r !! "content-type")) "image/") = true.
Proof.
  unfold is_image. intros H.
  destruct (Js.truthy _); [ | reflexivity ].
  cbn in *. by rewrite H.
Qed.

Ltac enter_pipeline Hp Hv :=
  unfold Strict.enhanceImage;
  rewrite Hp; cbn [negb];
  rewrite Hv; cbn [negb];
  unfold bind at 1; unfold try_catch at 1; unfold bind at 1;
  rewrite axios_head_run.

Lemma enhance_probe_fails V w url s e t :
  Js.truthy url = true ->
  s = Validator.trim V (default "" url) ->
  Strict.isValidUrl V s = true ->
  settle Strict.reachability_config (remote w s) = inl e ->
  Strict.enhanceImage V w url t =
    (inl (new_Error "Cannot access the specified image"),
     t ++ [HeadRequest s; ConsoleError "Image access error:" (message e)]).
Proof.
  intros Hp -> Hv Hs. enter_pipeline Hp Hv.
  rewrite Hs. cbn. by rewrite <- app_assoc.
Qed.

Lemma enhance_not_image V w url s r t :
  Js.truthy url = true ->
  s = Validator.trim V (default "" url) ->
  Strict.isValidUrl V s = true ->
  settle Strict.reachability_config (remote w s) = inr r ->
  is_image r = false ->
  Strict.enhanceImage V w url t =
    (inl (new_Error "Cannot access the specified image"),
     t ++ [HeadRequest s;
           ConsoleError "Image access error:" "URL does not point to a valid image"]).
Proof.
  intros Hp -> Hv Hs Hi. enter_pipeline Hp Hv.
  rewrite Hs, (not_image_split _ Hi). cbn. by rewrite <- app_assoc.
Qed.

Lemma enhance_checked V w url s r t :
  passes_checks V w url s r ->
  Strict.enhanceImage V w url t =
    (let! enhancedImageUrl :=
       try_catch
         (remini w s)
         (fun reminiError =>
            console_error "Remini Enhancement Specific Error:" (message reminiError) ;;
            throw (new_Error "Failed to enhance the image")) in
     if negb (Js.truthy enhancedImageUrl)
        || negb (Strict.isValidUrl V (default "" enhancedImageUrl))
     then throw (new_Error "Enhanced image URL is invalid") else
     let! image_size := Strict.getFileSize w (default "" enhancedImageUrl) in
     ret {| Strict.original_url := s;
            Strict.image_data := default "" enhancedImageUrl;
            Strict.image_size := image_size |}) (t ++ [HeadRequest s]).
Proof.
  intros (Hp & -> & Hv & Hs & Hi). enter_pipeline Hp Hv.
  rewrite Hs, (is_image_split _ Hi). reflexivity.
Qed.

Lemma getFileSize_rejected w url e t :
  settle Strict.size_probe_config (remote w url) = inl e ->
  Strict.getFileSize w url t =
    (inr "Unknown",
     t ++ [HeadRequest url; ConsoleError "Error getting file size:" (message e)]).
Proof.
  intros Hs. unfold Strict.getFileSize, try_catch, bind.
  rewrite axios_head_run, Hs. cbn. by rewrite <- app_assoc.
Qed.

Lemma getFileSize_answered w url r t :
  settle Strict.size_probe_config (remote w url) = inr r ->
  Strict.getFileSize w url t =
    (inr (Js.toFixed2
            (Js.div (Js.parseInt10
                       (Js.or_else (headers r !! "content-length") "0")) 1024)
          +:+ " KB"),
     t ++ [HeadRequest url]).
Proof.
  intros Hs. unfold Strict.getFileSize, try_catch, bind.
  rewrite axios_head_run, Hs. reflexivity.
Qed.

Lemma getFileSize_total w url t :
  exists label t', Strict.getFileSize w url t = (inr label, t').
Proof.
  destruct (settle Strict.size_probe_config (remote w url)) as [e|r] eqn:Hs.
  - eexists _, _. by apply getFileSize_rejected.
  - eexists _, _. by apply getFileSize_answered.
Qed.

Lemma enhance_provider_fails V w url s r e t :
  passes_checks V w url s r ->
  provider w s = inl e ->
  Strict.enhanceImage V w url t =
    (inl (new_Error "Failed to enhance the image"),
     t ++ [HeadRequest s; ProviderCall s;
           ConsoleError "Remini Enhancement Specific Error:" (message e)]).
Proof.
  intros Hc He. rewrite (enhance_checked _ _ _ _ _ _ Hc).
  unfold bind at 1, try_catch at 1. rewrite remini_run, He. cbn.
  by rewrite <- !app_assoc.
Qed.

Lemma enhance_provider_answers V w url s r e t :
  passes_checks V w url s r ->
  provider_returns V w s e ->
  Strict.enhanceImage V w url t =
    (let! image_size := Strict.getFileSize w e in
     ret {| Strict.original_url := s;
            Strict.image_data := e;
            Strict.image_size := image_size |})
      (t ++ [HeadRequest s; ProviderCall s]).
Proof.
  intros Hc (He & Ht & Hv). rewrite (enhance_checked _ _ _ _ _ _ Hc).
  unfold bind at 1, try_catch at 1. rewrite remini_run, He.
  cbn beta iota. cbn [default from_option id]. rewrite Ht, Hv. cbn [negb orb].
  by rewrite <- app_assoc.
Qed.

(** ** Presence check *)

(** C8: called with an absent input or with the empty string, the pipeline
    fails with "URL is required" (the MissingUrl kind), whatever the
    validator library and the collaborators are, and adds nothing to the
    trace: no request is issued and the provider is not called. *)
Theorem C8_missing_url_fails_first (V : Validator.Lib) (w : World) (t : Trace) :
  Strict.enhanceImage V w None t = (inl (new_Error "URL is required"), t)
  /\ Strict.enhanceImage V w (Some "") t = (inl (new_Error "URL is required"), t)
  /\ Spec.kind_of (new_Error "URL is required") = Spec.MissingUrl.
Proof. repeat split. Qed.

(** ** Probes *)

Lemma rejected_settle cfg x :
  rejected cfg x <-> exists e, settle cfg x = inl e.
Proof.
  destruct x as [reason | ms hops r]; unfold rejected, settle.
  { split; [ intros _; eexists; reflexivity | done ]. }
  destruct (Nat.ltb_spec (maxRedirects cfg) hops).
  { split; [ intros _; eexists; reflexivity | intros _; by left ]. }
  destruct (Z.ltb_spec (timeout cfg) ms).
  { split; [ intros _; eexists; reflexivity | intros _; right; by left ]. }
  destruct (validateStatus cfg (status r)).
  - split.
    + intros [? | [? | ?]]; [ lia | lia | discriminate ].
    + intros [e He]. discriminate.
  - split; [ intros _; eexists; reflexivity | intros _; right; by right ].
Qed.

Lemma accepted_settle cfg ms hops r :
  (hops <= maxRedirects cfg)%nat ->
  ms <= timeout cfg ->
  validateStatus cfg (status r) = true ->
  settle cfg (Answers ms hops r) = inr r.
Proof.
  intros Hh Hm Hv. unfold settle.
  destruct (Nat.ltb_spec (maxRedirects cfg) hops); [ lia | ].
  destruct (Z.ltb_spec (timeout cfg) ms); [ lia | ].
  by rewrite Hv.
Qed.

Lemma label_is_not_unknown (a : string) : a +:+ " KB" <> "Unknown".
Proof.
  intros H.
  do 8 (destruct a as [ | ? a ]; [ discriminate H | ]).
  discriminate H.
Qed.

(** C1 (the code at the failing input): on a reachable URL that serves
    text/html the strict pipeline fails with "Cannot access the specified
    image", the error of an unreachable resource; the message "URL does not
    point to a valid image" that the content-type test throws is caught by
    the enclosing handler and only reaches the console. *)
Theorem C1_html_reported_as_unreachable :
  Strict.enhanceImage Validator.spec_lib Scenario.pages
      (Some "https://example.com/page") [] =
    (inl (new_Error "Cannot access the specified image"),
     [HeadRequest "https://example.com/page";
      ConsoleError "Image access error:" "URL does not point to a valid image"])
  /\ Spec.kind_of (new_Error "Cannot access the specified image")
     = Spec.UnreachableResource
  /\ Spec.kind_of (new_Error "Cannot access the specified image")
     <> Spec.NotAnImage.
Proof.
  split; [ | split; [ reflexivity | discriminate ] ].
  exact (enhance_not_image Validator.spec_lib Scenario.pages
           (Some "https://example.com/page") "https://example.com/page"
           Scenario.html [] eq_refl eq_refl eq_refl eq_refl eq_refl).
Qed.

(** ** Size probing is best effort *)

(** C4: [getFileSize] always returns; when its probe is rejected (network
    error, redirect limit, timeout or unacceptable status) it returns
    "Unknown"; and a run whose earlier steps all succeeded then still
    succeeds, with "Unknown" as the size label. *)
Theorem C4_size_probe_never_fails
    (V : Validator.Lib) (w : World) (url : option string)
    (s e : string) (r : Response) (t : Trace) :
  passes_checks V w url s r ->
  provider_returns V w s e ->
  rejected Strict.size_probe_config (remote w e) ->
  (forall u t0, exists label t1, Strict.getFileSize w u t0 = (inr label, t1))
  /\ (forall t0, fst (Strict.getFileSize w e t0) = inr "Unknown")
  /\ fst (Strict.enhanceImage V w url t) =
       inr {| Strict.original_url := s;
              Strict.image_data := e;
              Strict.image_size := "Unknown" |}.
Proof.
  intros Hc He [err Herr]%rejected_settle.
  split; [ intros u t0; apply getFileSize_total | ].
  split.
  - intros t0. by rewrite (getFileSize_rejected _ _ _ _ Herr).
  - rewrite (enhance_provider_answers _ _ _ _ _ _ _ Hc He).
    unfold bind. by rewrite (getFileSize_rejected _ _ _ _ Herr).
Qed.

Lemma C4_size_probe_never_fails_witness :
  fst (Strict.enhanceImage Validator.spec_lib Scenario.slow_output
         (Some Scenario.input_url) []) =
    inr {| Strict.original_url := Scenario.input_url;
           Strict.image_data := Scenario.output_url;
           Strict.image_size := "Unknown" |}.
Proof.
  apply (C4_size_probe_never_fails Validator.spec_lib Scenario.slow_output
           (Some Scenario.input_url) Scenario.input_url Scenario.output_url
           Scenario.png []).
  - repeat split; vm_compute; reflexivity.
  - repeat split; vm_compute; reflexivity.
  - cbn. right. left. lia.
Defined.

(** ** The two status rules *)

(** C6: both probes use a 5000 ms timeout and at most 3 redirects; the size
    probe accepts the 2xx statuses and 403, the reachability probe the 2xx
    statuses only; so for a URL answering 403 within those limits the size
    probe yields a size label while the pipeline's reachability step
    fails. *)
Theorem C6_forbidden_is_sized_but_unreachable
    (V : Validator.Lib) (w : World) (url : option string) (s : string)
    (ms : Z) (hops : nat) (r : Response) (t : Trace) :
  Js.truthy url = true ->
  s = Validator.trim V (default "" url) ->
  Strict.isValidUrl V s = true ->
  remote w s = Answers ms hops r ->
  status r = 403 ->
  ms <= 5000 ->
  (hops <= 3)%nat ->
  (timeout Strict.size_probe_config = 5000
   /\ timeout Strict.reachability_config = 5000
   /\ maxRedirects Strict.size_probe_config = 3%nat
   /\ maxRedirects Strict.reachability_config = 3%nat)
  /\ (forall st, validateStatus Strict.size_probe_config st = true
                 <-> (200 <= st < 300 \/ st = 403))
  /\ (forall st, validateStatus Strict.reachability_config st = true
                 <-> 200 <= st < 300)
  /\ (exists label, Strict.getFileSize w s t = (inr label, t ++ [HeadRequest s])
                    /\ label <> "Unknown")
  /\ fst (Strict.enhanceImage V w url t) =
       inl (new_Error "Cannot access the specified image").
Proof.
  intros Hp Hs Hv Hr H403 Hms Hhops.
  split; [ done | ].
  split; [ intros st; cbn; lia | ].
  split; [ intros st; cbn; lia | ].
  split.
  - eexists. split.
    + apply getFileSize_answered. rewrite Hr.
      apply accepted_settle; [ done | done | by rewrite H403 ].
    + apply label_is_not_unknown.
  - assert (Hrej : rejected Strict.reachability_config (remote w s)).
    { rewrite Hr. cbn. right. right. by rewrite H403. }
    apply rejected_settle in Hrej as [err Herr].
    by rewrite (enhance_probe_fails _ _ _ _ _ _ Hp Hs Hv Herr).
Qed.

Lemma C6_forbidden_is_sized_but_unreachable_witness :
  (exists label,
      Strict.getFileSize Scenario.guarded Scenario.input_url [] =
        (inr label, [HeadRequest Scenario.input_url])
      /\ label <> "Unknown")
  /\ fst (Strict.enhanceImage Validator.spec_lib Scenario.guarded
            (Some Scenario.input_url) []) =
       inl (new_Error "Cannot access the specified image").
Proof.
  apply (C6_forbidden_is_sized_but_unreachable Validator.spec_lib
           Scenario.guarded (Some Scenario.input_url) Scenario.input_url
           50 0%nat Scenario.forbidden []);
    first [ reflexivity | lia ].
Defined.

(** ** Runs do not influence one another *)

Lemma getFileSize_same_remote w w' url t :
  remote w url = remote w' url ->
  Strict.getFileSize w url t = Strict.getFileSize w' url t.
Proof.
  intros H. unfold Strict.getFileSize, try_catch, bind.
  by rewrite !axios_head_run, H.
Qed.

Lemma enhanceImage_same_responses V w w' url t :
  remote w (Validator.trim V (default "" url))
    = remote w' (Validator.trim V (default "" url)) ->
  provider w (Validator.trim V (default "" url))
    = provider w' (Validator.trim V (default "" url)) ->
  (forall e, provider w (Validator.trim V (default "" url)) = inr (Some e) ->
             remote w e = remote w' e) ->
  Strict.enhanceImage V w url t = Strict.enhanceImage V w' url t.
Proof.
  intros Hr Hp He. unfold Strict.enhanceImage.
  destruct (negb (Js.truthy url)); [ reflexivity | ].
  destruct (negb (Strict.isValidUrl V _)); [ reflexivity | ].
  unfold bind, try_catch.
  rewrite !axios_head_run, <- Hr.
  destruct (settle _ _) as [err | r]; [ reflexivity | ].
  destruct (negb (Js.truthy _) || negb (Js.startsWith _ _)); [ reflexivity | ].
  cbn beta iota delta [ret].
  rewrite !remini_run, <- Hp.
  destruct (provider w _) as [err | [e | ]] eqn:Hprov; [ reflexivity | | reflexivity ].
  cbn beta iota. cbn [default from_option id].
  destruct (negb (Js.truthy (Some e)) || negb (Strict.isValidUrl V e));
    [ reflexivity | ].
  by rewrite (getFileSize_same_remote w w' e _ (He e eq_refl)).
Qed.

(** C9: the settlement of a run is a function of its own URL and of the
    responses its own collaborators give to it.  Two worlds that give the
    same answers to the probes and the provider call of this URL lead to
    the same settlement, from whatever traces the runs start; and the
    settlement is the same after any other run as on its own, since the
    only thing a run leaves behind is the trace, which no run reads. *)
Theorem C9_runs_do_not_interfere
    (V : Validator.Lib) (w w' other : World)
    (url url' : option string) (t t' : Trace) :
  remote w (Validator.trim V (default "" url))
    = remote w' (Validator.trim V (default "" url)) ->
  provider w (Validator.trim V (default "" url))
    = provider w' (Validator.trim V (default "" url)) ->
  (forall e, provider w (Validator.trim V (default "" url)) = inr (Some e) ->
             remote w e = remote w' e) ->
  fst (Strict.enhanceImage V w url t) = fst (Strict.enhanceImage V w' url t')
  /\ fst (Strict.enhanceImage V w url
            (snd (Strict.enhanceImage V other url' t')))
     = fst (Strict.enhanceImage V w url [])
  /\ snd (Strict.enhanceImage V w url t)
     = t ++ snd (Strict.enhanceImage V w url []).
Proof.
  intros Hr Hp He.
  pose proof (framed_enhanceImage V w url) as Hw.
  split; [ | split ].
  - rewrite (Hw t).
    rewrite <- (enhanceImage_same_responses V w w' url t' Hr Hp He).
    by rewrite (Hw t').
  - by rewrite (Hw (snd _)).
  - by rewrite (Hw t).
Qed.

Lemma C9_runs_do_not_interfere_witness :
  fst (Strict.enhanceImage Validator.spec_lib (Scenario.serving "204800")
         (Some Scenario.input_url) [ProviderCall "https://other.example/a.png"])
  = fst (Strict.enhanceImage Validator.spec_lib (Scenario.busy "204800")
           (Some Scenario.input_url) [])
  /\ fst (Strict.enhanceImage Validator.spec_lib (Scenario.serving "204800")
            (Some Scenario.input_url)
            (snd (Strict.enhanceImage Validator.spec_lib (Scenario.failing "boom")
                    (Some "https://other.example/a.png") [])))
     = fst (Strict.enhanceImage Validator.spec_lib (Scenario.serving "204800")
              (Some Scenario.input_url) [])
  /\ snd (Strict.enhanceImage Validator.spec_lib (Scenario.serving "204800")
            (Some Scenario.input_url) [ProviderCall "https://other.example/a.png"])
     = [ProviderCall "https://other.example/a.png"]
       ++ snd (Strict.enhanceImage Validator.spec_lib (Scenario.serving "204800")
                 (Some Scenario.input_url) []).
Proof.
  apply (C9_runs_do_not_interfere Validator.spec_lib
           (Scenario.serving "204800") (Scenario.busy "204800")
           (Scenario.failing "boom")
           (Some Scenario.input_url) (Some "https://other.example/a.png")
           [ProviderCall "https://other.example/a.png"] []).
  - reflexivity.
  - reflexivity.
  - intros e [= <-]. reflexivity.
Defined.

(** ** Failures of the strict pipeline *)

Lemma enhanceImage_failure_messages V w url t e t' :
  Strict.enhanceImage V w url t = (inl e, t') ->
  In (message e) strict_failures.
Proof.
  unfold Strict.enhanceImage, strict_failures.
  destruct (negb (Js.truthy url)).
  { intros [= <- _]. cbn. tauto. }
  destruct (negb (Strict.isValidUrl V _)).
  { intros [= <- _]. cbn. tauto. }
  unfold bind, try_catch. rewrite !axios_head_run.
  destruct (settle _ _) as [err | r].
  { intros [= <- _]. cbn. tauto. }
  destruct (negb (Js.truthy _) || negb (Js.startsWith _ _)).
  { intros [= <- _]. cbn. tauto. }
  cbn beta iota delta [ret]. rewrite !remini_run.
  destruct (provider w _) as [err | enhanced].
  { intros [= <- _]. cbn. tauto. }
  cbn beta iota.
  destruct (negb (Js.truthy enhanced) || negb (Strict.isValidUrl V _)).
  { intros [= <- _]. cbn. tauto. }
  destruct (getFileSize_total w (default "" enhanced)
              ((t ++ [HeadRequest (Validator.trim V (default "" url))])
                 ++ [ProviderCall (Validator.trim V (default "" url))]))
    as (label & t1 & ->).
  discriminate.
Qed.

Lemma strict_failure_nonempty m :
  In m strict_failures ->
  Js.or_else (Some m) "An unexpected error occurred" = m.
Proof.
  cbn. intros [<- | [<- | [<- | [<- | [<- | []]]]]]; reflexivity.
Qed.

Lemma strict_failure_classified m :
  In m strict_failures ->
  Spec.kind_of (new_Error m) <> Spec.InternalFault
  /\ Spec.kind_of (new_Error m) <> Spec.NotAnImage.
Proof.
  cbn. intros [<- | [<- | [<- | [<- | [<- | []]]]]]; split; discriminate.
Qed.

Lemma post_run V w req t :
  Strict.post_enhance_image V w req t
  = strict_answer (Strict.enhanceImage V w (body req !! "url") t).
Proof.
  unfold Strict.post_enhance_image, try_catch, bind, strict_answer.
  destruct (Strict.enhanceImage V w _ t) as [[e | r] t1]; reflexivity.
Qed.

Lemma get_run V w req t :
  Strict.get_enhance_image V w req t
  = strict_answer (Strict.enhanceImage V w (query req !! "url") t).
Proof.
  unfold Strict.get_enhance_image, try_catch, bind, strict_answer.
  destruct (Strict.enhanceImage V w _ t) as [[e | r] t1]; reflexivity.
Qed.

(** ** The inline route *)

Lemma inline_getFileSize_total w url t :
  exists label t', Inline.getFileSize w url t = (inr label, t').
Proof.
  unfold Inline.getFileSize, try_catch, bind. rewrite axios_head_run.
  destruct (settle _ _); eexists _, _; reflexivity.
Qed.

Lemma inline_missing newURL w req t :
  Js.truthy (body req !! "url") = false ->
  Inline.post_enhance_image newURL w req t =
    (inr {| code := 400;
            json := [("error", "URL_REQUIRED");
                     ("message",
                      "Please provide an image URL in the request body")] |}, t).
Proof.
  intros H. unfold Inline.post_enhance_image, try_catch. by rewrite H.
Qed.

Lemma inline_invalid newURL w req t :
  Js.truthy (body req !! "url") = true ->
  Inline.isValidUrl newURL (default "" (body req !! "url")) = false ->
  Inline.post_enhance_image newURL w req t =
    (inr {| code := 400;
            json := [("error", "INVALID_URL");
                     ("message", "The provided URL is not valid")] |}, t).
Proof.
  intros Ht Hv. unfold Inline.post_enhance_image, try_catch. by rewrite Ht, Hv.
Qed.

Lemma inline_provider_fails newURL w req err t :
  Js.truthy (body req !! "url") = true ->
  Inline.isValidUrl newURL (default "" (body req !! "url")) = true ->
  provider w (default "" (body req !! "url")) = inl err ->
  Inline.post_enhance_image newURL w req t =
    (inr {| code := 500;
            json := [("error", "ENHANCEMENT_FAILED");
                     ("message", "Failed to enhance the image");
                     ("details",
                      Js.or_else (Some (message err))
                                 "Unknown error occurred")] |},
     t ++ [ProviderCall (default "" (body req !! "url"));
           ConsoleError "Remini Enhancement Specific Error:" (message err)]).
Proof.
  intros Ht Hv He. unfold Inline.post_enhance_image.
  rewrite Ht, Hv. cbn [negb].
  unfold try_catch, bind. rewrite remini_run, He. cbn.
  by rewrite <- app_assoc.
Qed.

Lemma inline_invalid_result newURL w req enhanced t :
  Js.truthy (body req !! "url") = true ->
  Inline.isValidUrl newURL (default "" (body req !! "url")) = true ->
  provider w (default "" (body req !! "url")) = inr enhanced ->
  negb (Js.truthy enhanced)
    || negb (Inline.isValidUrl newURL (default "" enhanced)) = true ->
  Inline.post_enhance_image newURL w req t =
    (inr {| code := 500;
            json := [("error", "INVALID_RESULT");
                     ("message", "Enhanced image URL is invalid")] |},
     t ++ [ProviderCall (default "" (body req !! "url"))]).
Proof.
  intros Ht Hv He Hbad. unfold Inline.post_enhance_image.
  rewrite Ht, Hv. cbn [negb].
  unfold try_catch, bind. rewrite remini_run, He.
  cbn beta iota delta [ret]. by rewrite Hbad.
Qed.

(** ** Provider failures *)

Lemma failing_passes_checks m :
  passes_checks Validator.spec_lib (Scenario.failing m)
    (Some Scenario.input_url) Scenario.input_url Scenario.png.
Proof. repeat split. Qed.

(** C5 (counterexample): in the strict pipeline the provider's message
    cannot be recovered from the failure.  Whatever the provider rejects
    with, the run settles with the same error, so no function of the
    settlement returns the provider's message. *)
Lemma C5_cause_is_not_carried :
  ~ exists cause_of : Outcome Strict.Enhanced -> string,
      forall m : string,
        cause_of (fst (Strict.enhanceImage Validator.spec_lib
                         (Scenario.failing m) (Some Scenario.input_url) []))
        = m.
Proof.
  intros [cause_of H].
  pose proof (H "boom") as H1. pose proof (H "bang") as H2.
  rewrite (enhance_provider_fails _ _ _ _ _ (new_Error "boom") []
             (failing_passes_checks "boom") eq_refl) in H1.
  rewrite (enhance_provider_fails _ _ _ _ _ (new_Error "bang") []
             (failing_passes_checks "bang") eq_refl) in H2.
  cbn [fst] in H1, H2. rewrite H1 in H2. discriminate H2.
Qed.

(** C5 (amended): when the provider rejects a call that the earlier steps
    let through, the strict pipeline fails with "Failed to enhance the
    image" (the ProviderFailure kind); the provider's message is written to
    the console and is no part of the failure.  The inline route, given the
    same URL, answers 500 and does carry the provider's message, in the
    [details] field, or "Unknown error occurred" when that message is
    empty. *)
Theorem C5_provider_failure
    (V : Validator.Lib) (newURL : string -> Outcome unit) (w : World)
    (url : option string) (s : string) (r : Response) (err : Error)
    (req : Request) (t : Trace) :
  passes_checks V w url s r ->
  provider w s = inl err ->
  body req !! "url" = Some s ->
  Js.truthy (Some s) = true ->
  Inline.isValidUrl newURL s = true ->
  Strict.enhanceImage V w url t =
    (inl (new_Error "Failed to enhance the image"),
     t ++ [HeadRequest s; ProviderCall s;
           ConsoleError "Remini Enhancement Specific Error:" (message err)])
  /\ Spec.kind_of (new_Error "Failed to enhance the image") = Spec.ProviderFailure
  /\ fst (Inline.post_enhance_image newURL w req t) =
       inr {| code := 500;
              json := [("error", "ENHANCEMENT_FAILED");
                       ("message", "Failed to enhance the image");
                       ("details",
                        Js.or_else (Some (message err))
                                   "Unknown error occurred")] |}.
Proof.
  intros Hc He Hb Ht Hv.
  split; [ by apply (enhance_provider_fails _ _ _ _ r) | ].
  split; [ reflexivity | ].
  rewrite (inline_provider_fails newURL w req err t);
    rewrite ?Hb; done.
Qed.

Lemma C5_provider_failure_witness :
  Strict.enhanceImage Validator.spec_lib (Scenario.failing "boom")
      (Some Scenario.input_url) [] =
    (inl (new_Error "Failed to enhance the image"),
     [HeadRequest Scenario.input_url; ProviderCall Scenario.input_url;
      ConsoleError "Remini Enhancement Specific Error:" "boom"])
  /\ fst (Inline.post_enhance_image Validator.spec_newURL
            (Scenario.failing "boom") (Scenario.post Scenario.input_url) []) =
       inr {| code := 500;
              json := [("error", "ENHANCEMENT_FAILED");
                       ("message", "Failed to enhance the image");
                       ("details", "boom")] |}.
Proof.
  destruct (C5_provider_failure Validator.spec_lib Validator.spec_newURL
              (Scenario.failing "boom") (Some Scenario.input_url)
              Scenario.input_url Scenario.png (new_Error "boom")
              (Scenario.post Scenario.input_url) [])
    as (Hs & _ & Hi).
  - apply failing_passes_checks.
  - reflexivity.
  - reflexivity.
  - reflexivity.
  - reflexivity.
  - split; [ exact Hs | exact Hi ].
Defined.

(** ** Status codes *)

(** C7 (counterexample): the inline route answers a provider failure with
    status 500, and a missing URL with the code "URL_REQUIRED". *)
Lemma C7_inline_statuses_differ :
  fst (Inline.post_enhance_image Validator.spec_newURL
         (Scenario.failing "boom") (Scenario.post Scenario.input_url) []) =
    inr {| code := 500;
           json := [("error", "ENHANCEMENT_FAILED");
                    ("message", "Failed to enhance the image");
                    ("details", "boom")] |}
  /\ fst (Inline.post_enhance_image Validator.spec_newURL
            (Scenario.failing "boom") Scenario.no_input []) =
       inr {| code := 400;
              json := [("error", "URL_REQUIRED");
                       ("message",
                        "Please provide an image URL in the request body")] |}.
Proof. split; reflexivity. Qed.

Lemma strict_answer_reply V w url t :
  exists reply t',
    strict_answer (Strict.enhanceImage V w url t) = (inr reply, t')
    /\ code reply <> 500
    /\ match fst (Strict.enhanceImage V w url t) with
       | inl error =>
           reply = {| code := 400;
                      json := [("error", "ENHANCEMENT_FAILED");
                               ("message", message error)] |}
           /\ In (message error) strict_failures
           /\ Spec.kind_of error <> Spec.InternalFault
       | inr result =>
           reply = {| code := 200; json := Strict.result_json result |}
       end.
Proof.
  destruct (Strict.enhanceImage V w url t) as [[e | r] t1] eqn:Hrun.
  - pose proof (enhanceImage_failure_messages _ _ _ _ _ _ Hrun) as Hin.
    eexists _, _. split; [ reflexivity | ].
    rewrite (strict_failure_nonempty _ Hin).
    split; [ by cbn | ]. split; [ reflexivity | ]. split; [ exact Hin | ].
    destruct e as [m]. by apply strict_failure_classified.
  - eexists _, _. split; [ reflexivity | ]. by cbn.
Qed.

(** C7 (amended): in the strict variant the POST and the GET route answer
    every failure of the pipeline with status 400, the code
    "ENHANCEMENT_FAILED" and the failure's message, which is one of the
    pipeline's five; they never answer 500, which the global error handler
    sends.  In the inline variant the POST route answers a missing or an
    invalid URL with 400 and the codes "URL_REQUIRED" and "INVALID_URL",
    and a provider failure or an unusable provider result with 500 and the
    codes "ENHANCEMENT_FAILED" and "INVALID_RESULT". *)
Theorem C7_failure_replies
    (V : Validator.Lib) (newURL : string -> Outcome unit) (w : World)
    (req : Request) (t : Trace) :
  (forall route url,
      (route = Strict.post_enhance_image /\ url = body req !! "url")
      \/ (route = Strict.get_enhance_image /\ url = query req !! "url") ->
      exists reply t',
        route V w req t = (inr reply, t')
        /\ code reply <> 500
        /\ match fst (Strict.enhanceImage V w url t) with
           | inl error =>
               reply = {| code := 400;
                          json := [("error", "ENHANCEMENT_FAILED");
                                   ("message", message error)] |}
               /\ In (message error) strict_failures
               /\ Spec.kind_of error <> Spec.InternalFault
           | inr result =>
               reply = {| code := 200; json := Strict.result_json result |}
           end)
  /\ (forall err t0,
        fst (Strict.global_error_handler err t0) =
          inr {| code := 500;
                 json := [("error", "INTERNAL_SERVER_ERROR");
                          ("message", "An unexpected server error occurred")] |})
  /\ (Js.truthy (body req !! "url") = false ->
      fst (Inline.post_enhance_image newURL w req t) =
        inr {| code := 400;
               json := [("error", "URL_REQUIRED");
                        ("message",
                         "Please provide an image URL in the request body")] |})
  /\ (Js.truthy (body req !! "url") = true ->
      Inline.isValidUrl newURL (default "" (body req !! "url")) = false ->
      fst (Inline.post_enhance_image newURL w req t) =
        inr {| code := 400;
               json := [("error", "INVALID_URL");
                        ("message", "The provided URL is not valid")] |})
  /\ (Js.truthy (body req !! "url") = true ->
      Inline.isValidUrl newURL (default "" (body req !! "url")) = true ->
      forall err,
        provider w (default "" (body req !! "url")) = inl err ->
        fst (Inline.post_enhance_image newURL w req t) =
          inr {| code := 500;
                 json := [("error", "ENHANCEMENT_FAILED");
                          ("message", "Failed to enhance the image");
                          ("details",
                           Js.or_else (Some (message err))
                                      "Unknown error occurred")] |})
  /\ (Js.truthy (body req !! "url") = true ->
      Inline.isValidUrl newURL (default "" (body req !! "url")) = true ->
      forall enhanced,
        provider w (default "" (body req !! "url")) = inr enhanced ->
        negb (Js.truthy enhanced)
          || negb (Inline.isValidUrl newURL (default "" enhanced)) = true ->
        fst (Inline.post_enhance_image newURL w req t) =
          inr {| code := 500;
                 json := [("error", "INVALID_RESULT");
                          ("message", "Enhanced image URL is invalid")] |}).
Proof.
  split; [ | split; [ | split; [ | split; [ | split ] ] ] ].
  - intros route url [[-> ->] | [-> ->]];
      rewrite ?post_run, ?get_run; apply strict_answer_reply.
  - reflexivity.
  - intros H. by rewrite inline_missing.
  - intros Ht Hv. by rewrite inline_invalid.
  - intros Ht Hv err He. by rewrite (inline_provider_fails _ _ _ err).
  - intros Ht Hv enhanced He Hbad.
    by rewrite (inline_invalid_result _ _ _ enhanced).
Qed.

Lemma C7_failure_replies_witness :
  (exists reply t',
      Strict.post_enhance_image Validator.spec_lib (Scenario.failing "boom")
        (Scenario.post Scenario.input_url) [] = (inr reply, t')
      /\ code reply <> 500
      /\ reply = {| code := 400;
                    json := [("error", "ENHANCEMENT_FAILED");
                             ("message", "Failed to enhance the image")] |}
      /\ In "Failed to enhance the image" strict_failures
      /\ Spec.kind_of (new_Error "Failed to enhance the image")
         <> Spec.InternalFault)
  /\ fst (Inline.post_enhance_image Validator.spec_newURL
            (Scenario.failing "boom") (Scenario.post Scenario.input_url) []) =
       inr {| code := 500;
              json := [("error", "ENHANCEMENT_FAILED");
                       ("message", "Failed to enhance the image");
                       ("details", "boom")] |}.
Proof.
  destruct (C7_failure_replies Validator.spec_lib Validator.spec_newURL
              (Scenario.failing "boom") (Scenario.post Scenario.input_url) [])
    as (Hstrict & _ & _ & _ & Hfail & _).
  split.
  - exact (Hstrict Strict.post_enhance_image
             (Some Scenario.input_url) (or_introl (conj eq_refl eq_refl))).
  - exact (Hfail eq_refl eq_refl (new_Error "boom") eq_refl).
Defined.

(** ** The validator *)






Lemma ltrim_all_ws s : all_ws s = true -> Validator.ltrim s = "".
Proof.
  induction s as [ | c s IH ]; [ done | ].
  cbn. intros [-> Hs]%andb_prop. by apply IH.
Qed.

Lemma spec_trim_all_ws s : all_ws s = true -> Validator.spec_trim s = "".
Proof. intros H. unfold Validator.spec_trim. by rewrite ltrim_all_ws. Qed.

Lemma enhance_invalid V w s t :
  Js.truthy (Some s) = true ->
  Strict.isValidUrl V (Validator.trim V s) = false ->
  Strict.enhanceImage V w (Some s) t =
    (inl (new_Error "Invalid URL format or protocol"), t).
Proof.
  intros Ht Hv. unfold Strict.enhanceImage. rewrite Ht. cbn [negb default from_option id].
  by rewrite Hv.
Qed.

(** C10: a non-empty string of white space passes the presence check, is
    trimmed to the empty string, and is then refused by the validator: the
    run fails with "Invalid URL format or protocol" (InvalidUrl), not with
    "URL is required" (MissingUrl), and issues no request. *)
Theorem C10_blank_input_is_invalid (w : World) (s : string) (t : Trace) :
  s <> "" ->
  all_ws s = true ->
  Js.truthy (Some s) = true
  /\ Strict.enhanceImage Validator.spec_lib w (Some s) t =
       (inl (new_Error "Invalid URL format or protocol"), t)
  /\ Spec.kind_of (new_Error "Invalid URL format or protocol") = Spec.InvalidUrl
  /\ Spec.kind_of (new_Error "Invalid URL format or protocol") <> Spec.MissingUrl.
Proof.
  intros Hne Hws.
  assert (Ht : Js.truthy (Some s) = true).
  { cbn. apply negb_true_iff. by apply String.eqb_neq. }
  split; [ exact Ht | ].
  split; [ | split; [ reflexivity | discriminate ] ].
  apply enhance_invalid; [ exact Ht | ].
  cbn [Validator.trim Validator.spec_lib]. by rewrite spec_trim_all_ws.
Qed.

Lemma C10_blank_input_is_invalid_witness :
  Strict.enhanceImage Validator.spec_lib Scenario.pages (Some "   ") [] =
    (inl (new_Error "Invalid URL format or protocol"), []).
Proof.
  apply (C10_blank_input_is_invalid Scenario.pages "   " []).
  - discriminate.
  - reflexivity.
Defined.







(** ** The size label *)

Lemma kilobytes_rounding (n : Z) :
  0 <= n ->
  Qfloor (Qabs (inject_Z n / inject_Z 1024) * inject_Z 100 + (1 # 2))
  = (25 * n + 128) / 256.
Proof.
  intros Hn.
  assert (Hq : (0 <= inject_Z n / inject_Z 1024)%Q).
  { unfold Qle, Qdiv, Qmult, Qinv, inject_Z. cbn. lia. }
  rewrite (Qabs_pos _ Hq).
  assert (He : (inject_Z n / inject_Z 1024 * inject_Z 100 + (1 # 2)
                == (25 * n + 128) # 256)%Q).
  { unfold Qeq, Qdiv, Qmult, Qinv, Qplus, inject_Z. cbn. lia. }
  rewrite He. reflexivity.
Qed.

Lemma toFixed2_kilobytes (n : Z) :
  0 <= n ->
  Js.toFixed2 (Js.div (Js.Fin (inject_Z n)) 1024)
  = Js.hundredths ((25 * n + 128) / 256).
Proof.
  intros Hn. unfold Js.toFixed2, Js.div.
  rewrite (kilobytes_rounding n Hn).
  destruct (Qlt_le_dec _ 0) as [Hneg | _]; [ | reflexivity ].
  exfalso. revert Hneg.
  unfold Qlt, Qdiv, Qmult, Qinv, inject_Z. cbn. lia.
Qed.











(** ** Runs of the scenarios *)

Example run_succeeds :
  Strict.enhanceImage Validator.spec_lib (Scenario.serving "204800")
      (Some "  https://example.com/in.png ") [] =
    (inr {| Strict.original_url := Scenario.input_url;
            Strict.image_data := Scenario.output_url;
            Strict.image_size := "200.00 KB" |},
     [HeadRequest Scenario.input_url;
      ProviderCall Scenario.input_url;
      HeadRequest Scenario.output_url]).
Proof. vm_compute. reflexivity. Qed.

Example run_not_a_url :
  Strict.enhanceImage Validator.spec_lib (Scenario.serving "204800")
      (Some "not a url") [] =
    (inl (new_Error "Invalid URL format or protocol"), []).
Proof. reflexivity. Qed.

Example run_unreachable :
  fst (Strict.enhanceImage Validator.spec_lib (Scenario.serving "204800")
         (Some "https://nowhere.example/a.png") []) =
    inl (new_Error "Cannot access the specified image").
Proof. reflexivity. Qed.

Example run_empty_result :
  fst (Strict.enhanceImage Validator.spec_lib (Scenario.answering (Some ""))
         (Some Scenario.input_url) []) =
    inl (new_Error "Enhanced image URL is invalid").
Proof. reflexivity. Qed.

Example run_malformed_result :
  fst (Strict.enhanceImage Validator.spec_lib
         (Scenario.answering (Some "out.png")) (Some Scenario.input_url) []) =
    inl (new_Error "Enhanced image URL is invalid").
Proof. reflexivity. Qed.

Example route_get_succeeds :
  fst (Strict.get_enhance_image Validator.spec_lib (Scenario.serving "1536")
         {| body := ∅; query := {[ "url" := Scenario.input_url ]} |} []) =
    inr {| code := 200;
           json := [("original_url", Scenario.input_url);
                    ("image_data", Scenario.output_url);
                    ("image_size", "1.50 KB")] |}.
Proof. vm_compute. reflexivity. Qed.

(** * Further properties of the three variants *)

Import Stages.

(** ** Every exit of the strict pipeline *)

Lemma enhance_bad_result V w url s r v t :
  passes_checks V w url s r ->
  provider w s = inr v ->
  unusable (Strict.isValidUrl V) v = true ->
  Strict.enhanceImage V w url t =
    (inl (new_Error "Enhanced image URL is invalid"),
     t ++ [HeadRequest s; ProviderCall s]).
Proof.
  intros Hc Hv Hbad. rewrite (enhance_checked _ _ _ _ _ _ Hc).
  unfold bind at 1, try_catch at 1. rewrite remini_run, Hv.
  cbn beta iota. unfold unusable in Hbad. rewrite Hbad.
  cbn. by rewrite <- app_assoc.
Qed.

Lemma usable_returns V w s v :
  provider w s = inr v ->
  unusable (Strict.isValidUrl V) v = false ->
  exists e, v = Some e /\ provider_returns V w s e.
Proof.
  intros Hv Hu. unfold unusable in Hu.
  apply orb_false_elim in Hu as [Ht%negb_false_iff Hval%negb_false_iff].
  destruct v as [e | ]; [ | discriminate Ht ].
  exists e. split; [ reflexivity | ]. by repeat split.
Qed.

Lemma strict_run V w url t :
  StrictRun V w url t (Strict.enhanceImage V w url t).
Proof.
  destruct (Js.truthy url) eqn:Hp.
  2: { unfold Strict.enhanceImage. rewrite Hp. by apply exit_missing. }
  destruct (Strict.isValidUrl V (Validator.trim V (default "" url))) eqn:Hv.
  2: { unfold Strict.enhanceImage. rewrite Hp. cbn [negb]. rewrite Hv.
       by apply exit_invalid. }
  set (s := Validator.trim V (default "" url)) in *.
  destruct (settle Strict.reachability_config (remote w s)) as [err | r] eqn:Hs.
  { rewrite (enhance_probe_fails V w url s err t Hp eq_refl Hv Hs).
    by apply exit_unreachable. }
  destruct (is_image r) eqn:Hi.
  2: { rewrite (enhance_not_image V w url s r t Hp eq_refl Hv Hs Hi).
       by apply (exit_not_image _ _ _ _ s r). }
  assert (Hc : passes_checks V w url s r) by by repeat split.
  destruct (provider w s) as [err | v] eqn:Hprov.
  { rewrite (enhance_provider_fails _ _ _ _ _ _ t Hc Hprov).
    by apply (exit_provider_fails _ _ _ _ s r). }
  destruct (unusable (Strict.isValidUrl V) v) eqn:Hu.
  { rewrite (enhance_bad_result _ _ _ _ _ _ t Hc Hprov Hu).
    by apply (exit_bad_result _ _ _ _ s r v). }
  destruct (usable_returns _ _ _ _ Hprov Hu) as (e & -> & He).
  rewrite (enhance_provider_answers _ _ _ _ _ _ t Hc He). unfold bind.
  destruct (settle Strict.size_probe_config (remote w e)) as [err | r'] eqn:Hz.
  - rewrite (getFileSize_rejected _ _ _ _ Hz). cbn.
    rewrite <- app_assoc. by apply (exit_unsized _ _ _ _ s r e err).
  - rewrite (getFileSize_answered _ _ _ _ Hz). cbn.
    rewrite <- app_assoc. by apply (exit_sized _ _ _ _ s r e r').
Qed.

Ltac exits_of V w url t :=
  let H := fresh "Hrun" in
  pose proof (strict_run V w url t) as H;
  destruct (Strict.enhanceImage V w url t) as [? ?];
  inversion H; subst; clear H.

Lemma checks_agree V w url s r s' r' :
  passes_checks V w url s r -> passes_checks V w url s' r' -> s' = s /\ r' = r.
Proof.
  intros (_ & -> & _ & Hs & _) (_ & -> & _ & Hs' & _).
  rewrite Hs in Hs'. by injection Hs' as ->.
Qed.

(** X1: a run of the strict pipeline succeeds exactly when the presence,
    validity, reachability and content-type checks pass on the trimmed
    input and the provider resolves to a non-empty URL that the validator
    accepts; the result then carries the trimmed input, the provider's URL
    and the label the size probe gives for that URL. *)
Theorem X1_success_exactly_when_all_steps_pass
    (V : Validator.Lib) (w : World) (url : option string) (t : Trace)
    (res : Strict.Enhanced) :
  fst (Strict.enhanceImage V w url t) = inr res
  <-> exists r,
        passes_checks V w url (Strict.original_url res) r
        /\ provider_returns V w (Strict.original_url res) (Strict.image_data res)
        /\ fst (Strict.getFileSize w (Strict.image_data res) [])
           = inr (Strict.image_size res).
Proof.
  split.
  - intros Hres. exits_of V w url t; cbn in Hres; try discriminate Hres;
      injection Hres as <-; cbn [Strict.original_url Strict.image_data
                                  Strict.image_size];
      exists r; (split; [ assumption | split; [ assumption | ] ]).
    + by erewrite getFileSize_rejected by eassumption.
    + by erewrite getFileSize_answered by eassumption.
  - intros (r & Hc & He & Hlabel). destruct res as [s e label]. cbn in *.
    rewrite (enhance_provider_answers _ _ _ _ _ _ t Hc He). unfold bind.
    rewrite (framed_getFileSize w e _), Hlabel. reflexivity.
Qed.

Ltac open_checks :=
  repeat match goal with
    | H : passes_checks _ _ _ _ _ |- _ => destruct H as (? & ? & ? & ? & ?)
    | H : exists _, _ |- _ => destruct H as [? H]
    | H : _ /\ _ |- _ => destruct H as [? ?]
    end;
  subst.

(** X2: the message of a failed run tells which step refused it.  "URL is
    required": the input is absent or empty.  "Invalid URL format or
    protocol": the trimmed input fails the validator.  "Cannot access the
    specified image": the probe of the trimmed input is rejected or its
    response is not an image.  "Failed to enhance the image": the checks
    passed and the provider rejected.  "Enhanced image URL is invalid":
    the checks passed and the provider's value is absent, empty or fails
    the validator. *)
Theorem X2_failure_message_names_the_step
    (V : Validator.Lib) (w : World) (url : option string) (t : Trace)
    (e : Error) :
  fst (Strict.enhanceImage V w url t) = inl e ->
  (message e = "URL is required" <-> Js.truthy url = false)
  /\ (message e = "Invalid URL format or protocol"
      <-> Js.truthy url = true
          /\ Strict.isValidUrl V (Validator.trim V (default "" url)) = false)
  /\ (message e = "Cannot access the specified image"
      <-> Js.truthy url = true
          /\ Strict.isValidUrl V (Validator.trim V (default "" url)) = true
          /\ forall r,
               settle Strict.reachability_config
                 (remote w (Validator.trim V (default "" url))) = inr r ->
               is_image r = false)
  /\ (message e = "Failed to enhance the image"
      <-> exists r err,
            passes_checks V w url (Validator.trim V (default "" url)) r
            /\ provider w (Validator.trim V (default "" url)) = inl err)
  /\ (message e = "Enhanced image URL is invalid"
      <-> exists r v,
            passes_checks V w url (Validator.trim V (default "" url)) r
            /\ provider w (Validator.trim V (default "" url)) = inr v
            /\ unusable (Strict.isValidUrl V) v = true).
Proof.
  intros Hres. exits_of V w url t; cbn in Hres; try discriminate Hres;
    injection Hres as <-; cbn [message];
    repeat split; try discriminate; try done; intros; open_checks;
    try congruence; eauto 6.
  all: try (eexists _, _; split; [ repeat split; eauto | eauto ]).
  all: match goal with
       | Hall : forall r, _ = inr r -> is_image r = false,
         Hs : settle _ _ = inr ?r, Hi : is_image ?r = true |- _ =>
           rewrite (Hall r Hs) in Hi; discriminate Hi
       end.
Qed.

Lemma X2_failure_message_names_the_step_witness :
  Js.truthy (Some "https://example.com/page") = true
  /\ Strict.isValidUrl Validator.spec_lib
       (Validator.trim Validator.spec_lib "https://example.com/page") = true
  /\ forall r,
       settle Strict.reachability_config
         (remote Scenario.pages
            (Validator.trim Validator.spec_lib "https://example.com/page"))
       = inr r ->
       is_image r = false.
Proof.
  destruct (X2_failure_message_names_the_step Validator.spec_lib Scenario.pages
              (Some "https://example.com/page") []
              (new_Error "Cannot access the specified image") eq_refl)
    as (_ & _ & Hstep & _).
  exact (proj1 Hstep eq_refl).
Defined.

(** ** What a run asks of its collaborators *)

Lemma count_app kind (t1 t2 : Trace) :
  count kind (t1 ++ t2) = (count kind t1 + count kind t2)%nat.
Proof. unfold count. by rewrite List.filter_app, length_app. Qed.

(** X3: the provider is called exactly when the presence, validity,
    reachability and content-type checks have passed, and it is called
    with the trimmed input. *)
Theorem X3_provider_called_only_after_checks
    (V : Validator.Lib) (w : World) (url : option string) (u : string) :
  In (ProviderCall u) (snd (Strict.enhanceImage V w url []))
  <-> u = Validator.trim V (default "" url)
      /\ exists r, passes_checks V w url u r.
Proof.
  split.
  - intros Hin. exits_of V w url (@nil Event); cbn in Hin;
      repeat (destruct Hin as [Hin | Hin]; try discriminate Hin);
      try contradiction; injection Hin as <-;
      (split; [ by open_checks | eauto ]).
  - intros (-> & r & Hc). exits_of V w url (@nil Event); cbn;
      try (open_checks; congruence);
      try (destruct (checks_agree _ _ _ _ _ _ _ Hc ltac:(eassumption)) as [-> _];
           auto).
    all: open_checks;
      match goal with
      | Hi : is_image ?a = true, Hf : is_image ?b = false |- _ =>
          assert (a = b) as -> by congruence; congruence
      end.
Qed.

(** X4: a run of the strict pipeline issues at most two header-only
    requests and at most one provider call, and writes at most one line to
    the console; a successful run issues exactly two requests and one
    provider call. *)
Theorem X4_request_budget
    (V : Validator.Lib) (w : World) (url : option string) (t : Trace) :
  (count is_head (snd (Strict.enhanceImage V w url t)) <= count is_head t + 2)%nat
  /\ (count is_call (snd (Strict.enhanceImage V w url t)) <= count is_call t + 1)%nat
  /\ (count is_log (snd (Strict.enhanceImage V w url t)) <= count is_log t + 1)%nat
  /\ (forall res,
        fst (Strict.enhanceImage V w url t) = inr res ->
        count is_head (snd (Strict.enhanceImage V w url t))
          = (count is_head t + 2)%nat
        /\ count is_call (snd (Strict.enhanceImage V w url t))
           = (count is_call t + 1)%nat).
Proof.
  exits_of V w url t; cbn [fst snd]; rewrite ?count_app; cbn;
    repeat split; try lia; exfalso; congruence.
Qed.

(** X5: after the presence check only the trimmed input is used: two
    present inputs with the same trimmed form give the same run. *)
Theorem X5_only_the_trimmed_input_matters
    (V : Validator.Lib) (w : World) (url1 url2 : option string) (t : Trace) :
  Js.truthy url1 = true ->
  Js.truthy url2 = true ->
  Validator.trim V (default "" url1) = Validator.trim V (default "" url2) ->
  Strict.enhanceImage V w url1 t = Strict.enhanceImage V w url2 t.
Proof.
  intros H1 H2 Hs. unfold Strict.enhanceImage.
  rewrite H1, H2. cbn [negb]. by rewrite Hs.
Qed.

Lemma X5_only_the_trimmed_input_matters_witness :
  Strict.enhanceImage Validator.spec_lib (Scenario.serving "204800")
    (Some "  https://example.com/in.png ") []
  = Strict.enhanceImage Validator.spec_lib (Scenario.serving "204800")
      (Some "https://example.com/in.png") [].
Proof.
  apply (X5_only_the_trimmed_input_matters Validator.spec_lib
           (Scenario.serving "204800")
           (Some "  https://example.com/in.png ")
           (Some "https://example.com/in.png") []);
    reflexivity.
Defined.

(** ** The size probe *)

(** X6: the size probe answers "Unknown" exactly when its request is
    rejected (connection failure, more than 3 redirects, more than 5000 ms,
    or a status that is neither 2xx nor 403); it issues one request in
    either case and writes to the console only when it answers
    "Unknown". *)
Theorem X6_unknown_exactly_when_rejected
    (w : World) (url : string) (t : Trace) :
  (fst (Strict.getFileSize w url t) = inr "Unknown"
   <-> rejected Strict.size_probe_config (remote w url))
  /\ count is_head (snd (Strict.getFileSize w url t)) = (count is_head t + 1)%nat
  /\ (count is_log (snd (Strict.getFileSize w url t)) = (count is_log t + 1)%nat
      <-> rejected Strict.size_probe_config (remote w url)).
Proof.
  rewrite rejected_settle.
  destruct (settle Strict.size_probe_config (remote w url)) as [err | r] eqn:Hs.
  - rewrite (getFileSize_rejected _ _ _ _ Hs). cbn [fst snd].
    rewrite !count_app. cbn. repeat split; eauto.
  - rewrite (getFileSize_answered _ _ _ _ Hs). cbn [fst snd].
    rewrite !count_app. cbn. repeat split; try lia.
    + intros [= H]. by apply label_is_not_unknown in H.
    + intros [e He]. discriminate He.
    + intros [e He]. discriminate He.
Qed.

Lemma append_assoc (a b c : string) : (a +:+ b) +:+ c = a +:+ (b +:+ c).
Proof.
  induction a as [ | x a IH ]; [ reflexivity | ].
  change (String x ((a +:+ b) +:+ c) = String x (a +:+ (b +:+ c))).
  by rewrite IH.
Qed.

Lemma hundredths_whole (k : Z) :
  Js.hundredths (100 * k) = pretty (Z.to_N k) +:+ ".00".
Proof.
  unfold Js.hundredths.
  rewrite (Z.mul_comm 100 k), Z.div_mul, Z.mod_mul by lia.
  reflexivity.
Qed.

(** X7: when the content-length read is a whole number of kilobytes,
    [1024 * k] bytes, the size label is the decimal rendering of [k]
    followed by ".00 KB". *)
Theorem X7_whole_kilobytes
    (w : World) (url : string) (r : Response) (k : Z) (t : Trace) :
  settle Strict.size_probe_config (remote w url) = inr r ->
  0 <= k ->
  Js.safe_integer (1024 * k) ->
  Js.parseInt10 (Js.or_else (headers r !! "content-length") "0")
    = Js.Fin (inject_Z (1024 * k)) ->
  fst (Strict.getFileSize w url t) = inr (pretty (Z.to_N k) +:+ ".00 KB").
Proof.
  intros Hs Hk _ Hp.
  rewrite (getFileSize_answered _ _ _ _ Hs), Hp. cbn [fst].
  rewrite (toFixed2_kilobytes (1024 * k)) by lia.
  replace ((25 * (1024 * k) + 128) / 256) with (100 * k).
  - rewrite hundredths_whole. by rewrite append_assoc.
  - apply Z.div_unique with (r := 128); lia.
Qed.

Lemma X7_whole_kilobytes_witness :
  fst (Strict.getFileSize (Scenario.serving "3072") Scenario.output_url [])
  = inr "3.00 KB".
Proof.
  apply (X7_whole_kilobytes (Scenario.serving "3072") Scenario.output_url
           (Scenario.sized "3072") 3 []).
  - reflexivity.
  - lia.
  - unfold Js.safe_integer. cbn. lia.
  - reflexivity.
Defined.

Lemma settle_same_rule (c1 c2 : Config) (x : Exchange) :
  timeout c1 = timeout c2 ->
  maxRedirects c1 = maxRedirects c2 ->
  (forall ms hops r, x = Answers ms hops r ->
                     validateStatus c1 (status r) = validateStatus c2 (status r)) ->
  settle c1 x = settle c2 x.
Proof.
  intros Ht Hm Hv. destruct x as [reason | ms hops r]; [ reflexivity | ].
  unfold settle. by rewrite Ht, Hm, (Hv ms hops r eq_refl).
Qed.

(** X8: the size probes of the three variants give the same label and
    leave the same trace for every URL whose final status is not 403; the
    probes of the inline and of the shared variant are the same
    throughout. *)
Theorem X8_size_probes_agree_off_403
    (w : World) (url : string) (t : Trace) :
  (forall ms hops r, remote w url = Answers ms hops r -> status r <> 403) ->
  Strict.getFileSize w url t = Inline.getFileSize w url t
  /\ Inline.getFileSize w url t = Shared.getFileSize w url t.
Proof.
  intros H403. split; [ | reflexivity ].
  unfold Strict.getFileSize, Inline.getFileSize, try_catch, bind.
  rewrite !axios_head_run.
  rewrite (settle_same_rule Strict.size_probe_config Inline.size_probe_config);
    [ reflexivity | reflexivity | reflexivity | ].
  intros ms hops r Hx. specialize (H403 ms hops r Hx).
  cbn. unfold default_validateStatus.
  destruct (Z.eqb_spec (status r) 403); [ contradiction | ].
  by rewrite orb_false_r.
Qed.

Lemma X8_size_probes_agree_off_403_witness :
  Strict.getFileSize (Scenario.serving "204800") Scenario.output_url []
  = Inline.getFileSize (Scenario.serving "204800") Scenario.output_url [].
Proof.
  apply (X8_size_probes_agree_off_403
           (Scenario.serving "204800") Scenario.output_url []).
  intros ms hops r [= _ _ <-]. discriminate.
Defined.

(** X9: for a URL that answers 403 within the limits, the size probe of
    the strict variant returns the label computed from the response, while
    the size probes of the inline and shared variants, which keep the
    library's 2xx rule, return "Unknown". *)
Theorem X9_size_probes_differ_on_403
    (w : World) (url : string) (ms : Z) (hops : nat) (r : Response) (t : Trace) :
  remote w url = Answers ms hops r ->
  status r = 403 ->
  ms <= 5000 ->
  (hops <= 3)%nat ->
  fst (Strict.getFileSize w url t) = inr (size_label r)
  /\ fst (Inline.getFileSize w url t) = inr "Unknown"
  /\ fst (Shared.getFileSize w url t) = inr "Unknown"
  /\ size_label r <> "Unknown".
Proof.
  intros Hx H403 Hms Hhops.
  assert (Hstrict : settle Strict.size_probe_config (remote w url) = inr r).
  { rewrite Hx. apply accepted_settle; [ done | done | by rewrite H403 ]. }
  assert (Hbasic : exists err, settle Inline.size_probe_config (remote w url) = inl err).
  { apply rejected_settle. rewrite Hx. right. right. cbn. by rewrite H403. }
  destruct Hbasic as [err Herr].
  split; [ by rewrite (getFileSize_answered _ _ _ _ Hstrict) | ].
  split; [ | split; [ | apply label_is_not_unknown ] ].
  - unfold Inline.getFileSize, try_catch, bind. by rewrite axios_head_run, Herr.
  - unfold Shared.getFileSize, try_catch, bind.
    rewrite axios_head_run.
    change Shared.size_probe_config with Inline.size_probe_config.
    by rewrite Herr.
Qed.

Lemma X9_size_probes_differ_on_403_witness :
  fst (Strict.getFileSize Scenario.guarded Scenario.input_url [])
    = inr (size_label Scenario.forbidden)
  /\ fst (Inline.getFileSize Scenario.guarded Scenario.input_url [])
     = inr "Unknown"
  /\ fst (Shared.getFileSize Scenario.guarded Scenario.input_url [])
     = inr "Unknown"
  /\ size_label Scenario.forbidden <> "Unknown".
Proof.
  apply (X9_size_probes_differ_on_403 Scenario.guarded Scenario.input_url
           50 0%nat Scenario.forbidden []);
    first [ reflexivity | lia ].
Defined.

(** ** Routes *)

(** X10: the POST and the GET route answer alike: given the same [url],
    one in the body and one in the query, they send the same reply and
    leave the same trace, in the strict and in the shared variant. *)
Theorem X10_post_and_get_agree
    (V : Validator.Lib) (newURL : string -> Outcome unit) (w : World)
    (req_post req_get : Request) (t : Trace) :
  body req_post !! "url" = query req_get !! "url" ->
  Strict.post_enhance_image V w req_post t
    = Strict.get_enhance_image V w req_get t
  /\ Shared.post_enhance_image newURL w req_post t
     = Shared.get_enhance_image newURL w req_get t.
Proof.
  intros Hurl.
  unfold Strict.post_enhance_image, Strict.get_enhance_image,
    Shared.post_enhance_image, Shared.get_enhance_image.
  cbn zeta. by rewrite Hurl.
Qed.

Lemma X10_post_and_get_agree_witness :
  Strict.post_enhance_image Validator.spec_lib (Scenario.serving "204800")
    (Scenario.post Scenario.input_url) []
  = Strict.get_enhance_image Validator.spec_lib (Scenario.serving "204800")
      {| body := ∅; query := {[ "url" := Scenario.input_url ]} |} [].
Proof.
  apply (X10_post_and_get_agree Validator.spec_lib Validator.spec_newURL
           (Scenario.serving "204800") (Scenario.post Scenario.input_url)
           {| body := ∅; query := {[ "url" := Scenario.input_url ]} |} []).
  reflexivity.
Defined.

(** ** Every exit of the inline route *)

Lemma inline_done newURL w req u e label t t' :
  body req !! "url" = Some u ->
  Js.truthy (Some u) = true ->
  Inline.isValidUrl newURL u = true ->
  provider w u = inr (Some e) ->
  unusable (Inline.isValidUrl newURL) (Some e) = false ->
  Inline.getFileSize w e (t ++ [ProviderCall u]) = (inr label, t') ->
  Inline.post_enhance_image newURL w req t =
    (inr {| code := 200; json := [("image_data", e); ("image_size", label)] |},
     t').
Proof.
  intros Hu Ht Hv Hp Hbad Hsize.
  unfold Inline.post_enhance_image. rewrite Hu, Ht.
  cbn [negb default from_option id]. rewrite Hv. cbn [negb].
  unfold try_catch at 1, bind at 1, try_catch at 1, bind at 1.
  rewrite remini_run, Hp. cbn beta iota delta [ret].
  unfold unusable in Hbad. rewrite Hbad.
  unfold bind. cbn [default from_option id]. by rewrite Hsize.
Qed.

Lemma inline_run newURL w req t :
  exists reply t',
    Inline.post_enhance_image newURL w req t = (inr reply, t')
    /\ InlineRun newURL w req t (reply, t').
Proof.
  destruct (Js.truthy (body req !! "url")) eqn:Ht.
  2: { eexists _, _. split; [ by apply inline_missing | ].
       by apply inline_exit_missing. }
  destruct (body req !! "url") as [u | ] eqn:Hu; [ | discriminate Ht ].
  destruct (Inline.isValidUrl newURL u) eqn:Hv.
  2: { eexists _, _. split.
       - apply inline_invalid; by rewrite Hu.
       - by apply (inline_exit_invalid _ _ _ _ u). }
  destruct (provider w u) as [err | v] eqn:Hp.
  { eexists _, _. split.
    - apply (inline_provider_fails _ _ _ err); by rewrite Hu.
    - rewrite Hu. by apply (inline_exit_provider_fails _ _ _ _ u err). }
  destruct (unusable (Inline.isValidUrl newURL) v) eqn:Hbad.
  { eexists _, _. split.
    - apply (inline_invalid_result _ _ _ v); rewrite ?Hu; done.
    - rewrite Hu. by apply (inline_exit_bad_result _ _ _ _ u v). }
  assert (exists e, v = Some e) as [e ->].
  { unfold unusable in Hbad. apply orb_false_elim in Hbad as [Hn _].
    destruct v; [ by eexists | discriminate Hn ]. }
  destruct (inline_getFileSize_total w e (t ++ [ProviderCall u]))
    as (label & t' & Hsize).
  exists {| code := 200; json := [("image_data", e); ("image_size", label)] |}, t'.
  split.
  - by apply (inline_done _ _ _ u e label).
  - by apply (inline_exit_done _ _ _ _ u e).
Qed.

Ltac inline_exits newURL w req t :=
  let reply := fresh "reply" in
  let t' := fresh "t'" in
  let Heq := fresh "Heq" in
  let Hrun := fresh "Hrun" in
  destruct (inline_run newURL w req t) as (reply & t' & Heq & Hrun);
  exists reply, t'; split; [ exact Heq | ]; clear Heq;
  inversion Hrun; subst; clear Hrun.

(** X11: the inline route always replies, and its status tells what
    happened.  400: the URL is missing, empty or refused by [new URL]; the
    trace is then unchanged (no provider call, no request).  500: the URL
    was accepted and the provider rejected or resolved to an unusable
    value.  200: the URL was accepted and the provider resolved to a
    non-empty URL that [new URL] accepts. *)
Theorem X11_inline_status_names_the_step
    (newURL : string -> Outcome unit) (w : World) (req : Request) (t : Trace) :
  exists reply t',
    Inline.post_enhance_image newURL w req t = (inr reply, t')
    /\ (code reply = 400
        <-> Js.truthy (body req !! "url") = false
            \/ Inline.isValidUrl newURL (default "" (body req !! "url")) = false)
    /\ (code reply = 400 -> t' = t)
    /\ (code reply = 500
        <-> Js.truthy (body req !! "url") = true
            /\ Inline.isValidUrl newURL (default "" (body req !! "url")) = true
            /\ ((exists err, provider w (default "" (body req !! "url")) = inl err)
                \/ (exists v,
                      provider w (default "" (body req !! "url")) = inr v
                      /\ unusable (Inline.isValidUrl newURL) v = true)))
    /\ (code reply = 200
        <-> Js.truthy (body req !! "url") = true
            /\ Inline.isValidUrl newURL (default "" (body req !! "url")) = true
            /\ exists e,
                 provider w (default "" (body req !! "url")) = inr (Some e)
                 /\ unusable (Inline.isValidUrl newURL) (Some e) = false).
Proof.
  inline_exits newURL w req t; cbn [code];
    repeat match goal with
      | H : body req !! "url" = Some _ |- _ => rewrite H in *
      end;
    cbn [default from_option id] in *;
    repeat split; try discriminate; try done; intros; open_checks;
    try congruence; eauto 8.
  all: repeat match goal with
         | H : _ \/ _ |- _ => destruct H
         end; open_checks; congruence.
Qed.

Lemma inline_getFileSize_trace w url t label t' :
  Inline.getFileSize w url t = (inr label, t') ->
  t' = t ++ [HeadRequest url]
  \/ exists m, t' = t ++ [HeadRequest url; ConsoleError "Error getting file size:" m].
Proof.
  unfold Inline.getFileSize, try_catch, bind. rewrite axios_head_run.
  destruct (settle _ _) as [err | r]; cbn; intros [= _ <-].
  - right. exists (message err). by rewrite <- app_assoc.
  - by left.
Qed.

(** X12: the inline route calls the provider at most once and issues at
    most one header-only request; the only URL it ever probes is the one
    it returns as [image_data], so the input URL is passed to the provider
    without being probed. *)
Theorem X12_inline_probes_only_the_result
    (newURL : string -> Outcome unit) (w : World) (req : Request) :
  exists reply t',
    Inline.post_enhance_image newURL w req [] = (inr reply, t')
    /\ (count is_call t' <= 1)%nat
    /\ (count is_head t' <= 1)%nat
    /\ (forall x, In (HeadRequest x) t' ->
                  code reply = 200 /\ In ("image_data", x) (json reply)).
Proof.
  inline_exits newURL w req (@nil Event); cbn [code json];
    try match goal with
      | H : Inline.getFileSize _ _ _ = _ |- _ =>
          apply inline_getFileSize_trace in H as [-> | [m ->]]
      end.
  all: split; [ cbn; lia | ].
  all: split; [ cbn; lia | ].
  all: intros x Hx; cbn in Hx.
  all: repeat (destruct Hx as [Hx | Hx]; try discriminate Hx).
  all: try contradiction.
  all: injection Hx as <-; split; [ reflexivity | by left ].
Qed.

(** ** The shared variant *)

Lemma shared_getFileSize_same w url t :
  Shared.getFileSize w url t = Inline.getFileSize w url t.
Proof. reflexivity. Qed.

Lemma shared_enhance_run newURL w url t :
  Shared.enhanceImage newURL w url t =
    if negb (Js.truthy url) then (inl (new_Error "URL is required"), t) else
    if negb (Shared.isValidUrl newURL (default "" url))
    then (inl (new_Error "Invalid URL format"), t) else
    match provider w (default "" url) with
    | inl err =>
        (inl (new_Error "Failed to enhance the image"),
         t ++ [ProviderCall (default "" url);
               ConsoleError "Remini Enhancement Specific Error:" (message err)])
    | inr v =>
        if unusable (Shared.isValidUrl newURL) v
        then (inl (new_Error "Enhanced image URL is invalid"),
              t ++ [ProviderCall (default "" url)])
        else
          match Inline.getFileSize w (default "" v)
                  (t ++ [ProviderCall (default "" url)]) with
          | (inr label, t') =>
              (inr {| Shared.image_data := default "" v;
                      Shared.image_size := label |}, t')
          | (inl e, t') => (inl e, t')
          end
    end.
Proof.
  unfold Shared.enhanceImage.
  destruct (negb (Js.truthy url)); [ reflexivity | ].
  destruct (negb (Shared.isValidUrl newURL _)); [ reflexivity | ].
  unfold bind at 1, try_catch at 1. rewrite remini_run.
  destruct (provider w _) as [err | v].
  { cbn. by rewrite <- app_assoc. }
  cbn beta iota. unfold unusable.
  destruct (negb (Js.truthy v) || negb (Shared.isValidUrl newURL _));
    [ reflexivity | ].
  unfold bind. rewrite shared_getFileSize_same.
  by destruct (Inline.getFileSize w _ _) as [[e | label] t'].
Qed.

Lemma shared_post_run newURL w req t :
  Shared.post_enhance_image newURL w req t =
    match Shared.enhanceImage newURL w (body req !! "url") t with
    | (inr result, t1) =>
        (inr {| code := 200; json := Shared.result_json result |}, t1)
    | (inl error, t1) =>
        (inr {| code := 400;
                json := [("error", "ENHANCEMENT_FAILED");
                         ("message",
                          Js.or_else (Some (message error))
                                     "An unexpected error occurred")] |},
         t1 ++ [ConsoleError "Enhancement Error:" (message error)])
    end.
Proof.
  unfold Shared.post_enhance_image, try_catch, bind. cbn zeta.
  by destruct (Shared.enhanceImage newURL w _ t) as [[e | r] t1].
Qed.

(** X13: the POST route of the shared variant and the inline POST route
    succeed on the same requests, then with the same reply (status 200,
    [image_data], [image_size]) and the same trace.  When they do not
    succeed, the shared route answers 400 with "ENHANCEMENT_FAILED" and a
    non-empty message where the inline route answers 400 or 500, and the
    shared route writes one more console line, "Enhancement Error:" with
    that message. *)
Theorem X13_shared_and_inline_routes
    (newURL : string -> Outcome unit) (w : World) (req : Request) (t : Trace) :
  exists inline_reply shared_reply inline_trace shared_trace,
    Inline.post_enhance_image newURL w req t = (inr inline_reply, inline_trace)
    /\ Shared.post_enhance_image newURL w req t = (inr shared_reply, shared_trace)
    /\ (code shared_reply = 200 <-> code inline_reply = 200)
    /\ (code inline_reply = 200 ->
        shared_reply = inline_reply /\ shared_trace = inline_trace)
    /\ (code inline_reply <> 200 ->
        (code inline_reply = 400 \/ code inline_reply = 500)
        /\ exists m,
             m <> ""
             /\ shared_reply = {| code := 400;
                                  json := [("error", "ENHANCEMENT_FAILED");
                                           ("message", m)] |}
             /\ shared_trace
                = inline_trace ++ [ConsoleError "Enhancement Error:" m]).
Proof.
  assert (Hfail : forall (ci : Z) ji ti m,
            (ci = 400 \/ ci = 500) -> m <> "" ->
            exists inline_reply shared_reply inline_trace shared_trace,
              (inr {| code := ci; json := ji |}, ti)
                = (@inr Error Reply inline_reply, inline_trace)
              /\ (inr {| code := 400;
                         json := [("error", "ENHANCEMENT_FAILED");
                                  ("message", Js.or_else (Some m)
                                     "An unexpected error occurred")] |},
                  ti ++ [ConsoleError "Enhancement Error:" m])
                 = (@inr Error Reply shared_reply, shared_trace)
              /\ (code shared_reply = 200 <-> code inline_reply = 200)
              /\ (code inline_reply = 200 ->
                  shared_reply = inline_reply /\ shared_trace = inline_trace)
              /\ (code inline_reply <> 200 ->
                  (code inline_reply = 400 \/ code inline_reply = 500)
                  /\ exists m',
                       m' <> ""
                       /\ shared_reply
                          = {| code := 400;
                               json := [("error", "ENHANCEMENT_FAILED");
                                        ("message", m')] |}
                       /\ shared_trace
                          = inline_trace ++ [ConsoleError "Enhancement Error:" m'])).
  { intros ci ji ti m Hci Hm. eexists _, _, _, _.
    split; [ reflexivity | ]. split; [ reflexivity | ]. cbn [code].
    split; [ split; intros; lia | ].
    split; [ intros; lia | ].
    intros _. split; [ exact Hci | ]. exists m.
    split; [ exact Hm | ]. split; [ | reflexivity ].
    cbn. destruct (String.eqb_spec m ""); [ contradiction | reflexivity ]. }
  rewrite shared_post_run, shared_enhance_run.
  destruct (Js.truthy (body req !! "url")) eqn:Ht; cbn [negb].
  2: { rewrite (inline_missing _ _ _ _ Ht).
       apply (Hfail 400 _ _ "URL is required"); [ by left | discriminate ]. }
  change (Shared.isValidUrl newURL) with (Inline.isValidUrl newURL).
  destruct (Inline.isValidUrl newURL (default "" (body req !! "url"))) eqn:Hv;
    cbn [negb].
  2: { rewrite (inline_invalid _ _ _ _ Ht Hv).
       apply (Hfail 400 _ _ "Invalid URL format"); [ by left | discriminate ]. }
  destruct (provider w (default "" (body req !! "url"))) as [err | v] eqn:Hp.
  { rewrite (inline_provider_fails _ _ _ err _ Ht Hv Hp).
    apply (Hfail 500 _ _ "Failed to enhance the image");
      [ by right | discriminate ]. }
  destruct (unusable (Inline.isValidUrl newURL) v) eqn:Hbad.
  { rewrite (inline_invalid_result _ _ _ v _ Ht Hv Hp Hbad).
    apply (Hfail 500 _ _ "Enhanced image URL is invalid");
      [ by right | discriminate ]. }
  destruct (body req !! "url") as [u | ] eqn:Hu; [ | discriminate Ht ].
  assert (exists e, v = Some e) as [e ->].
  { unfold unusable in Hbad. apply orb_false_elim in Hbad as [Hn _].
    destruct v; [ by eexists | discriminate Hn ]. }
  cbn [default from_option id] in *.
  destruct (inline_getFileSize_total w e (t ++ [ProviderCall u]))
    as (label & t' & Hsize).
  rewrite (inline_done newURL w req u e label t t' Hu Ht Hv Hp Hbad Hsize), Hsize.
  eexists _, _, _, _.
  split; [ reflexivity | ]. split; [ reflexivity | ]. cbn [code].
  split; [ done | ]. split; [ done | ]. intros Hne. contradiction.
Qed.

(** X14: the shared pipeline calls the provider exactly when the input is
    present and accepted by [new URL], and it calls it with the input as
    given, untrimmed; the provider call is the first thing a run does, so
    the input URL is never probed beforehand. *)
Theorem X14_shared_calls_provider_with_raw_input
    (newURL : string -> Outcome unit) (w : World) (url : option string)
    (u : string) :
  (In (ProviderCall u) (snd (Shared.enhanceImage newURL w url []))
   <-> url = Some u
       /\ Js.truthy url = true
       /\ Shared.isValidUrl newURL u = true)
  /\ (forall ev rest,
        snd (Shared.enhanceImage newURL w url []) = ev :: rest ->
        ev = ProviderCall (default "" url)).
Proof.
  rewrite shared_enhance_run.
  destruct (Js.truthy url) eqn:Ht; cbn [negb].
  2: { split; [ split; [ intros [] | intros (_ & [=] & _) ] | intros ev rest [=] ]. }
  destruct url as [x | ]; [ | discriminate Ht ]. cbn [default from_option id].
  destruct (Shared.isValidUrl newURL x) eqn:Hv; cbn [negb].
  2: { split; [ split; [ intros [] | intros ([= ->] & _ & Hu); congruence ]
              | intros ev rest [=] ]. }
  assert (Hiff : forall evs,
            In (ProviderCall u) (ProviderCall x :: evs) ->
            (forall y, ~ In (ProviderCall y) evs) ->
            Some x = Some u /\ true = true /\ Shared.isValidUrl newURL u = true).
  { intros evs [[= ->] | Hin] Hnone; [ done | by apply Hnone in Hin ]. }
  destruct (provider w x) as [err | v].
  { split; [ split | by intros ev rest [= <- _] ].
    - intros Hin. apply (Hiff _ Hin). intros y [Hy | []]. discriminate Hy.
    - intros ([= ->] & _). by left. }
  destruct (unusable (Shared.isValidUrl newURL) v).
  { split; [ split | by intros ev rest [= <- _] ].
    - intros Hin. apply (Hiff _ Hin). intros y [].
    - intros ([= ->] & _). by left. }
  destruct (Inline.getFileSize w (default "" v) ([] ++ [ProviderCall x]))
    as [[e | label] t'] eqn:Hsize.
  { destruct (inline_getFileSize_total w (default "" v) ([] ++ [ProviderCall x]))
      as (? & ? & Htot). rewrite Htot in Hsize. discriminate Hsize. }
  apply inline_getFileSize_trace in Hsize as [-> | [m ->]]; cbn [snd app].
  - split; [ split | by intros ev rest [= <- _] ].
    + intros Hin. apply (Hiff _ Hin). intros y [Hy | []]. discriminate Hy.
    + intros ([= ->] & _). by left.
  - split; [ split | by intros ev rest [= <- _] ].
    + intros Hin. apply (Hiff _ Hin).
      intros y [Hy | [Hy | []]]; discriminate Hy.
    + intros ([= ->] & _). by left.
Qed.

(** X15: what a route of the strict variant tells the client about a
    failure is what it logged: a 400 reply carries the message of the line
    "Enhancement Error:" that the route wrote last, and a 200 reply
    carries the result of the run with the run's trace unchanged. *)
Theorem X15_failure_reply_is_the_logged_message
    (V : Validator.Lib) (w : World) (req : Request) (t : Trace) :
  exists reply t',
    Strict.post_enhance_image V w req t = (inr reply, t')
    /\ (code reply = 400 \/ code reply = 200)
    /\ (code reply = 400 ->
        exists m,
          json reply = [("error", "ENHANCEMENT_FAILED"); ("message", m)]
          /\ last t' = Some (ConsoleError "Enhancement Error:" m)
          /\ fst (Strict.enhanceImage V w (body req !! "url") t)
             = inl (new_Error m))
    /\ (code reply = 200 ->
        exists res,
          Strict.enhanceImage V w (body req !! "url") t = (inr res, t')
          /\ json reply = Strict.result_json res).
Proof.
  rewrite post_run.
  destruct (Strict.enhanceImage V w (body req !! "url") t) as [[e | res] t1]
    eqn:Hrun; cbn [strict_answer].
  - pose proof (enhanceImage_failure_messages _ _ _ _ _ _ Hrun) as Hin.
    rewrite (strict_failure_nonempty _ Hin).
    eexists _, _. split; [ reflexivity | ]. cbn [code json].
    split; [ by left | ]. split; [ | discriminate ].
    intros _. exists (message e).
    split; [ reflexivity | ]. split; [ apply last_snoc | ].
    by destruct e.
  - eexists _, _. split; [ reflexivity | ]. cbn [code json].
    split; [ by right | ]. split; [ discriminate | ].
    intros _. by exists res.
Qed.
